(** * xDS resource decoding: cluster resource type and the EDS test parser

    A shallow embedding of

    - [xds/internal/xdsclient/xdsresource/cluster_resource_type.go]
      (the cluster resource type: [Decode], [Equal], [Raw], the delegating
      watcher), and
    - [xds/internal/balancer/clusterresolver/testutil_test.go]
      ([parseEDSRespProto], [parseDropPolicy], [parseEndpoints],
      [parseAddress]),
    - [interceptor.go] and its ADN variant (the interceptor chains), and
    - [test/gracefulstop_test.go] (the [Dial] of the delaying listener).

    Conventions.  A Go pointer is an [option] ([None] is the nil pointer); a
    protobuf getter [GetX] is the nil-safe accessor generated for the message
    and is therefore defined on the [option].  A [uint32] is an [N], an
    [int32] or [int] a [Z]; conversions that can wrap are written out.  A Go
    slice is a [list].  A run-time panic is the [None] of an outer [option].
    A Go [error] result is an [option]: [None] is the nil error. *)

From Stdlib Require Import NArith ZArith Ascii String List Lia.
From Stdlib Require Import DecimalPos DecimalZ DecimalString.
From stdpp Require Import base decidable option list numbers gmap fin_sets.

Local Open Scope N_scope.

(** ** Protobuf messages read by the parser

    The generated message types live in the protobuf libraries; only the
    fields the repository's code reads are kept. *)

Module typepb.
(** [FractionalPercent_DenominatorType] is an [int32] enumeration. *)
Definition FractionalPercent_DenominatorType := Z.
Definition FractionalPercent_HUNDRED : FractionalPercent_DenominatorType := 0%Z.
Definition FractionalPercent_TEN_THOUSAND : FractionalPercent_DenominatorType := 1%Z.
Definition FractionalPercent_MILLION : FractionalPercent_DenominatorType := 2%Z.

Record FractionalPercent := {
  Numerator : N;
  Denominator : FractionalPercent_DenominatorType;
}.

Definition GetNumerator (x : option FractionalPercent) : N :=
  match x with Some p => Numerator p | None => 0 end.

Definition GetDenominator (x : option FractionalPercent)
  : FractionalPercent_DenominatorType :=
  match x with Some p => Denominator p | None => FractionalPercent_HUNDRED end.
End typepb.

Module wrapperspb.
Record UInt32Value := { Value : N }.

Definition GetValue (x : option UInt32Value) : N :=
  match x with Some v => Value v | None => 0 end.
End wrapperspb.

Module corepb.
(** The [PortSpecifier] oneof of a socket address. *)
Inductive PortSpecifier :=
| SocketAddress_PortValue (port : N)
| SocketAddress_NamedPort (name : string).

Record SocketAddress := {
  SocketAddress_Address : string;
  SocketAddress_PortSpecifier : option PortSpecifier;
}.

Definition SocketAddress_GetAddress (x : option SocketAddress) : string :=
  match x with Some a => SocketAddress_Address a | None => EmptyString end.

Definition SocketAddress_GetPortValue (x : option SocketAddress) : N :=
  match x with
  | Some a =>
      match SocketAddress_PortSpecifier a with
      | Some (SocketAddress_PortValue p) => p
      | _ => 0
      end
  | None => 0
  end.

(** The [Address] oneof of an address: a socket address or a pipe. *)
Inductive Address_kind :=
| Address_SocketAddress (sa : option SocketAddress)
| Address_Pipe (path : string).

Record Address := { Address_Address : option Address_kind }.

Definition Address_GetSocketAddress (x : option Address) : option SocketAddress :=
  match x with
  | Some a =>
      match Address_Address a with
      | Some (Address_SocketAddress sa) => sa
      | _ => None
      end
  | None => None
  end.

(** [HealthStatus] is an [int32] enumeration. *)
Definition HealthStatus := Z.
Definition HealthStatus_UNKNOWN : HealthStatus := 0%Z.
End corepb.

Module endpointpb.
Record Endpoint := { Endpoint_Address : option corepb.Address }.

Definition Endpoint_GetAddress (x : option Endpoint) : option corepb.Address :=
  match x with Some e => Endpoint_Address e | None => None end.

(** The [HostIdentifier] oneof of an [LbEndpoint]. *)
Inductive HostIdentifier :=
| LbEndpoint_Endpoint (e : option Endpoint)
| LbEndpoint_EndpointName (name : string).

Record LbEndpoint := {
  LbEndpoint_HostIdentifier : option HostIdentifier;
  LbEndpoint_HealthStatus : corepb.HealthStatus;
  LbEndpoint_LoadBalancingWeight : option wrapperspb.UInt32Value;
}.

Definition LbEndpoint_GetEndpoint (x : option LbEndpoint) : option Endpoint :=
  match x with
  | Some l =>
      match LbEndpoint_HostIdentifier l with
      | Some (LbEndpoint_Endpoint e) => e
      | _ => None
      end
  | None => None
  end.

Definition LbEndpoint_GetHealthStatus (x : option LbEndpoint) : corepb.HealthStatus :=
  match x with
  | Some l => LbEndpoint_HealthStatus l
  | None => corepb.HealthStatus_UNKNOWN
  end.

Definition LbEndpoint_GetLoadBalancingWeight (x : option LbEndpoint)
  : option wrapperspb.UInt32Value :=
  match x with Some l => LbEndpoint_LoadBalancingWeight l | None => None end.

Record Locality := {
  Region : string;
  Zone : string;
  SubZone : string;
}.

Record LocalityLbEndpoints := {
  LocalityLbEndpoints_Locality : option Locality;
  LocalityLbEndpoints_LbEndpoints : list (option LbEndpoint);
  LocalityLbEndpoints_LoadBalancingWeight : option wrapperspb.UInt32Value;
  LocalityLbEndpoints_Priority : N;
}.

Definition GetLocality (x : option LocalityLbEndpoints) : option Locality :=
  match x with Some l => LocalityLbEndpoints_Locality l | None => None end.

Definition GetLbEndpoints (x : option LocalityLbEndpoints) : list (option LbEndpoint) :=
  match x with Some l => LocalityLbEndpoints_LbEndpoints l | None => [] end.

Definition GetLoadBalancingWeight (x : option LocalityLbEndpoints)
  : option wrapperspb.UInt32Value :=
  match x with Some l => LocalityLbEndpoints_LoadBalancingWeight l | None => None end.

Definition GetPriority (x : option LocalityLbEndpoints) : N :=
  match x with Some l => LocalityLbEndpoints_Priority l | None => 0 end.
End endpointpb.

Module xdspb.
Record ClusterLoadAssignment_Policy_DropOverload := {
  Category : string;
  DropPercentage : option typepb.FractionalPercent;
}.

Definition GetCategory (x : option ClusterLoadAssignment_Policy_DropOverload) : string :=
  match x with Some d => Category d | None => EmptyString end.

Definition GetDropPercentage (x : option ClusterLoadAssignment_Policy_DropOverload)
  : option typepb.FractionalPercent :=
  match x with Some d => DropPercentage d | None => None end.

Record ClusterLoadAssignment_Policy := {
  DropOverloads : list (option ClusterLoadAssignment_Policy_DropOverload);
}.

Definition GetDropOverloads (x : option ClusterLoadAssignment_Policy)
  : list (option ClusterLoadAssignment_Policy_DropOverload) :=
  match x with Some p => DropOverloads p | None => [] end.

Record ClusterLoadAssignment := {
  Endpoints : list (option endpointpb.LocalityLbEndpoints);
  Policy : option ClusterLoadAssignment_Policy;
}.

Definition GetPolicy (x : option ClusterLoadAssignment)
  : option ClusterLoadAssignment_Policy :=
  match x with Some m => Policy m | None => None end.
End xdspb.

(** The envelope: a type URL and the serialized bytes. *)
Module anypb.
Record Any := {
  TypeUrl : string;
  Value : list Byte.byte;
}.
End anypb.

(** ** Go library functions the code calls *)

Module strconv.
(** [strconv.Itoa]: the decimal rendering of an [int]. *)
Definition Itoa (i : Z) : string := NilZero.string_of_int (Z.to_int i).
End strconv.

Module net.
Local Open Scope string_scope.

(** [bytealg.IndexByteString host ':' >= 0]. *)
Fixpoint has_colon (host : string) : bool :=
  match host with
  | EmptyString => false
  | String c rest => if Ascii.eqb c ":"%char then true else has_colon rest
  end.

(** [net.JoinHostPort]: "host:port", or "[host]:port" when the host
    contains a colon (a literal IPv6 address). *)
Definition JoinHostPort (host port : string) : string :=
  if has_colon host then "[" ++ host ++ "]:" ++ port
  else host ++ ":" ++ port.
End net.

Module proto.
Import anypb.

Fixpoint bytes_equal (x y : list Byte.byte) : bool :=
  match x, y with
  | [], [] => true
  | a :: x', b :: y' => Byte.eqb a b && bytes_equal x' y'
  | _, _ => false
  end.

(** [proto.Equal] at the envelope type: two nil messages are equal, a nil
    and a non-nil message are not, and two non-nil envelopes are equal
    when their type URLs and their value bytes are. *)
Definition Equal (x y : option Any) : bool :=
  match x, y with
  | None, None => true
  | Some a, Some b =>
      String.eqb (TypeUrl a) (TypeUrl b) && bytes_equal (Value a) (Value b)
  | _, _ => false
  end.
End proto.

(** A Go type with its zero value. *)
Class ZeroValue (A : Type) := zero_value : A.

Module internal.
(** Modelled from the spec: [LocalityID] is declared in the package
    [xds/internal]; {region, zone, subZone}, with the field names
    [parseEDSRespProto] uses. *)
Record LocalityID := {
  Region : string;
  Zone : string;
  SubZone : string;
}.
End internal.

Module xdsresource.
Import anypb.

(** *** Endpoint types

    Modelled from the spec: [OverloadDropConfig], [Endpoint], [Locality],
    [EndpointsUpdate] and [EndpointHealthStatus] are declared in another
    file of the package; the fields are those of the spec's data model,
    under the names [parseEDSRespProto] uses. *)
Record OverloadDropConfig := {
  Category : string;
  Numerator : N;
  Denominator : N;
}.

Definition EndpointHealthStatus := Z.

Record Endpoint := {
  Address : string;
  HealthStatus : EndpointHealthStatus;
  Endpoint_Weight : N;
}.

Record Locality := {
  Endpoints : list Endpoint;
  ID : internal.LocalityID;
  Priority : N;
  Weight : N;
}.

Record EndpointsUpdate := {
  Drops : list OverloadDropConfig;
  Localities : list Locality;
}.

#[global] Instance EndpointsUpdate_zero : ZeroValue EndpointsUpdate :=
  {| Drops := []; Localities := [] |}.

(** *** Resource type descriptor

    Modelled from the spec: [resourceTypeState] and the [ResourceType]
    enumeration are declared in another file of the package; the three
    fields are the ones the singleton below sets. *)
Inductive ResourceType :=
| ClusterResource
| EndpointsResource.

Record resourceTypeState := {
  typeURL : string;
  typeEnum : ResourceType;
  allResourcesRequiredInSotW : bool;
}.

Record clusterResourceType := {
  clusterResourceType_resourceTypeState : resourceTypeState;
}.

(** Singleton instantiation of the resource type implementation. *)
Definition clusterType : clusterResourceType :=
  {| clusterResourceType_resourceTypeState :=
       {| typeURL := "type.googleapis.com/envoy.config.cluster.v3.Cluster";
          typeEnum := ClusterResource;
          allResourcesRequiredInSotW := true |} |}.

(** [TypeURL] is promoted from the embedded [resourceTypeState]. *)
Definition TypeURL (t : clusterResourceType) : string :=
  typeURL (clusterResourceType_resourceTypeState t).

Section Cluster.
(** The parts of the package that are declared elsewhere: the security
    configuration of a cluster, the remaining decoded fields of a
    [ClusterUpdate], the bootstrap configuration and Go's [error]. *)
Context {SecurityConfig Fields Config error : Type}.
Context `{!ZeroValue SecurityConfig, !ZeroValue Fields}.

(** Modelled from the spec: [ClusterUpdate] carries the raw envelope and
    the security configuration checked after decoding; its other fields
    are opaque here. *)
Record ClusterUpdate := {
  SecurityCfg : SecurityConfig;
  Raw : option Any;
  OtherFields : Fields;
}.

#[global] Instance ClusterUpdate_zero : ZeroValue ClusterUpdate :=
  {| SecurityCfg := zero_value; Raw := None; OtherFields := zero_value |}.

(** A value of the [ResourceData] interface: the nil interface, a
    (possibly nil) pointer to a [ClusterResourceData], or a value of
    another implementation, kept as what a call of its [Raw] method does:
    [Some raw] when it returns [raw], [None] when it panics, as on a nil
    pointer of that implementation.
    [ClusterResourceData] embeds a [ResourceData] besides its update. *)
Inductive ResourceData :=
| iface_nil
| iface_cluster (p : option ClusterResourceData)
| iface_other (raw : option (option Any))
with ClusterResourceData :=
| Build_ClusterResourceData (embedded : ResourceData) (Resource : ClusterUpdate).

Definition ClusterResourceData_ResourceData (c : ClusterResourceData) : ResourceData :=
  match c with Build_ClusterResourceData e _ => e end.

Definition ClusterResourceData_Resource (c : ClusterResourceData) : ClusterUpdate :=
  match c with Build_ClusterResourceData _ r => r end.

Record DecodeResult := {
  Name : string;
  Resource : ResourceData;
}.

Record DecodeOptions := { BootstrapConfig : Config }.

(** [unmarshalClusterResource] and [securityConfigValidator] are
    declared in other files of the package. *)
Variable unmarshalClusterResource :
  option Any -> string * ClusterUpdate * option error.
Variable securityConfigValidator : Config -> SecurityConfig -> option error.

(** [&DecodeResult{Name: name, Resource: &ClusterResourceData{Resource: u}}] *)
Definition new_DecodeResult (name : string) (u : ClusterUpdate) : DecodeResult :=
  {| Name := name;
     Resource := iface_cluster (Some (Build_ClusterResourceData iface_nil u)) |}.

(** [Decode] deserializes and validates a resource.  The outer [option]
    is [None] when [opts] is nil and is dereferenced. *)
Definition Decode (_ : clusterResourceType) (opts : option DecodeOptions)
    (resource : option Any) : option (option DecodeResult * option error) :=
  let '(name, cluster, err) := unmarshalClusterResource resource in
  if String.eqb name EmptyString then
    (* Name is unset only when protobuf deserialization fails. *)
    Some (None, err)
  else if bool_decide (is_Some err) then
    (* Protobuf deserialization succeeded, but resource validation failed. *)
    Some (Some (new_DecodeResult name zero_value), err)
  else
    (* Perform extra validation here. *)
    match opts with
    | None => None
    | Some o =>
        match securityConfigValidator (BootstrapConfig o) (SecurityCfg cluster) with
        | Some err => Some (Some (new_DecodeResult name zero_value), Some err)
        | None => Some (Some (new_DecodeResult name cluster), None)
        end
    end.

(** [Raw] returns the underlying raw protobuf form of the cluster
    resource; on a nil receiver the field access panics. *)
Definition ClusterResourceData_Raw (c : option ClusterResourceData)
  : option (option Any) :=
  match c with
  | Some c' => Some (Raw (ClusterResourceData_Resource c'))
  | None => None
  end.

(** [other.Raw()]: the method of the value the interface holds. *)
Definition ResourceData_Raw (other : ResourceData) : option (option Any) :=
  match other with
  | iface_nil => None
  | iface_cluster p => ClusterResourceData_Raw p
  | iface_other raw => raw
  end.

Definition is_nil_ptr (c : option ClusterResourceData) : bool :=
  match c with None => true | Some _ => false end.

Definition is_nil_iface (other : ResourceData) : bool :=
  match other with iface_nil => true | _ => false end.

(** [Equal] returns true if [other] is equal to [c]. *)
Definition Equal (c : option ClusterResourceData) (other : ResourceData)
  : option bool :=
  if is_nil_ptr c && is_nil_iface other then Some true
  else if negb (Bool.eqb (is_nil_ptr c) (is_nil_iface other)) then Some false
  else
    match c with
    | None => None
    | Some c' =>
        match ResourceData_Raw other with
        | Some raw => Some (proto.Equal (Raw (ClusterResourceData_Resource c')) raw)
        | None => None
        end
    end.

(** [ClusterWatcher] wraps the callbacks invoked for the events of a
    watched cluster resource; [W] is the state of the watcher, which a
    callback updates. *)
Class ClusterWatcher (W : Type) := {
  ClusterWatcher_OnUpdate : W -> option ClusterResourceData -> W;
  ClusterWatcher_OnError : W -> error -> W;
  ClusterWatcher_OnResourceDoesNotExist : W -> W;
}.

Record delegatingClusterWatcher (W : Type) := { watcher : W }.
Arguments watcher {W} _.

Section Delegation.
Context {W : Type} `{!ClusterWatcher W}.

(** The type assertion of [data] to a [ClusterResourceData] pointer
    panics unless the interface holds such a pointer. *)
Definition OnUpdate (d : delegatingClusterWatcher W) (data : ResourceData)
  : option (delegatingClusterWatcher W) :=
  match data with
  | iface_cluster c =>
      Some {| watcher := ClusterWatcher_OnUpdate (watcher d) c |}
  | _ => None
  end.

Definition OnError (d : delegatingClusterWatcher W) (err : error)
  : delegatingClusterWatcher W :=
  {| watcher := ClusterWatcher_OnError (watcher d) err |}.

Definition OnResourceDoesNotExist (d : delegatingClusterWatcher W)
  : delegatingClusterWatcher W :=
  {| watcher := ClusterWatcher_OnResourceDoesNotExist (watcher d) |}.
End Delegation.
End Cluster.

Arguments ClusterUpdate : clear implicits.
Arguments ResourceData : clear implicits.
Arguments ClusterResourceData : clear implicits.
Arguments DecodeResult : clear implicits.
Arguments DecodeOptions : clear implicits.
Arguments ClusterWatcher : clear implicits.
Arguments watcher {W} _.
End xdsresource.

Module fmt.
(** An operand of a format verb. *)
Inductive operand :=
| of_locality (locality : option endpointpb.LocalityLbEndpoints)
| of_int (i : Z)
| of_priorities (priorities : gset N).

(** [fmt.Errorf format operands...]: the error whose message is [format]
    with each verb replaced by the rendering of its operand. *)
Inductive error :=
| Errorf (format : string) (operands : list operand).
End fmt.

Module clusterresolver.
Import fmt.

(** The conversion [uint32(i)] of an [int]. *)
Definition uint32 (i : Z) : N := Z.to_N (i mod 2 ^ 32).

Definition parseAddress (socketAddress : option corepb.SocketAddress) : string :=
  net.JoinHostPort
    (corepb.SocketAddress_GetAddress socketAddress)
    (strconv.Itoa (Z.of_N (corepb.SocketAddress_GetPortValue socketAddress))).

Definition parseDropPolicy
    (dropPolicy : option xdspb.ClusterLoadAssignment_Policy_DropOverload)
  : xdsresource.OverloadDropConfig :=
  let percentage := xdspb.GetDropPercentage dropPolicy in
  let numerator := typepb.GetNumerator percentage in
  let denominator : N :=
    let tag := typepb.GetDenominator percentage in
    if Z.eqb tag typepb.FractionalPercent_HUNDRED then 100%N
    else if Z.eqb tag typepb.FractionalPercent_TEN_THOUSAND then 10000%N
    else if Z.eqb tag typepb.FractionalPercent_MILLION then 1000000%N
    else 0%N in
  {| xdsresource.Category := xdspb.GetCategory dropPolicy;
     xdsresource.Numerator := numerator;
     xdsresource.Denominator := denominator |}.

(** The endpoint appended for one [lbEndpoint]. *)
Definition parseEndpoint (lbEndpoint : option endpointpb.LbEndpoint)
  : xdsresource.Endpoint :=
  {| xdsresource.HealthStatus := endpointpb.LbEndpoint_GetHealthStatus lbEndpoint;
     xdsresource.Address :=
       parseAddress
         (corepb.Address_GetSocketAddress
            (endpointpb.Endpoint_GetAddress
               (endpointpb.LbEndpoint_GetEndpoint lbEndpoint)));
     xdsresource.Endpoint_Weight :=
       wrapperspb.GetValue (endpointpb.LbEndpoint_GetLoadBalancingWeight lbEndpoint) |}.

Definition parseEndpoints (lbEndpoints : list (option endpointpb.LbEndpoint))
  : list xdsresource.Endpoint :=
  fold_left
    (fun endpoints lbEndpoint => endpoints ++ [parseEndpoint lbEndpoint])
    lbEndpoints [].

Definition append_Drops (ret : xdsresource.EndpointsUpdate)
    (d : xdsresource.OverloadDropConfig) : xdsresource.EndpointsUpdate :=
  {| xdsresource.Drops := xdsresource.Drops ret ++ [d];
     xdsresource.Localities := xdsresource.Localities ret |}.

Definition append_Localities (ret : xdsresource.EndpointsUpdate)
    (l : xdsresource.Locality) : xdsresource.EndpointsUpdate :=
  {| xdsresource.Drops := xdsresource.Drops ret;
     xdsresource.Localities := xdsresource.Localities ret ++ [l] |}.

(** The loop over the drop policies. *)
Definition drops_loop
    (dropPolicies : list (option xdspb.ClusterLoadAssignment_Policy_DropOverload))
    (ret : xdsresource.EndpointsUpdate) : xdsresource.EndpointsUpdate :=
  fold_left
    (fun ret dropPolicy => append_Drops ret (parseDropPolicy dropPolicy))
    dropPolicies ret.

Definition locality_without_ID : string :=
  "EDS response contains a locality without ID, locality: %+v"%string.

Definition priority_missing : string :=
  "priority %v missing (with different priorities %v received)"%string.

(** The loop over [m.Endpoints]: [inl] is the early return with an error,
    [inr] the state when the loop ends. *)
Fixpoint localities_loop
    (localities : list (option endpointpb.LocalityLbEndpoints))
    (ret : xdsresource.EndpointsUpdate) (priorities : gset N)
  : error + xdsresource.EndpointsUpdate * gset N :=
  match localities with
  | [] => inr (ret, priorities)
  | locality :: rest =>
      match endpointpb.GetLocality locality with
      | None => inl (Errorf locality_without_ID [of_locality locality])
      | Some l =>
          let lid :=
            {| internal.Region := endpointpb.Region l;
               internal.Zone := endpointpb.Zone l;
               internal.SubZone := endpointpb.SubZone l |} in
          let priority := endpointpb.GetPriority locality in
          let priorities := {[ priority ]} ∪ priorities in
          localities_loop rest
            (append_Localities ret
               {| xdsresource.ID := lid;
                  xdsresource.Endpoints :=
                    parseEndpoints (endpointpb.GetLbEndpoints locality);
                  xdsresource.Weight :=
                    wrapperspb.GetValue (endpointpb.GetLoadBalancingWeight locality);
                  xdsresource.Priority := priority |})
            priorities
      end
  end.

(** The loop [for i := 0; i < len(priorities); i++], entered at [i] with
    [todo = len(priorities) - i] rounds to go; the result is the error of
    the early return, if any. *)
Fixpoint priorities_loop (priorities : gset N) (todo : nat) (i : Z)
  : option error :=
  match todo with
  | O => None
  | S todo' =>
      if bool_decide (uint32 i ∈ priorities)
      then priorities_loop priorities todo' (i + 1)%Z
      else Some (Errorf priority_missing [of_int i; of_priorities priorities])
  end.

(** [parseEDSRespProto] turns an EDS response proto message into an
    [EndpointsUpdate].  [m.Endpoints] is a field access: it panics on a
    nil [m]. *)
Definition parseEDSRespProto (m : option xdspb.ClusterLoadAssignment)
  : option (xdsresource.EndpointsUpdate * option error) :=
  let ret :=
    drops_loop (xdspb.GetDropOverloads (xdspb.GetPolicy m)) zero_value in
  match m with
  | None => None
  | Some m' =>
      match localities_loop (xdspb.Endpoints m') ret ∅ with
      | inl err => Some (zero_value, Some err)
      | inr (ret, priorities) =>
          match priorities_loop priorities (size priorities) 0 with
          | Some err => Some (zero_value, Some err)
          | None => Some (ret, None)
          end
      end
  end.

(** [parseEDSRespProtoForTesting] panics if parsing fails. *)
Definition parseEDSRespProtoForTesting (m : option xdspb.ClusterLoadAssignment)
  : option xdsresource.EndpointsUpdate :=
  match parseEDSRespProto m with
  | Some (u, None) => Some u
  | _ => None
  end.
End clusterresolver.

(** ** Interceptor chains ([interceptor.go] and its ADN variant) *)

Module grpc.

Section Server.
(** [context.Context], the request value, the service implementation and
    what a call yields (the response and the error of the Go function,
    with the effects of running it) are left open. *)
Context {Ctx Req Srv Result : Type}.

(** [UnaryServerInfo] consists of various information about a unary RPC on
    server side. *)
Record UnaryServerInfo := {
  Server : Srv;
  FullMethod : string;
}.

Definition UnaryHandler := Ctx -> Req -> Result.

Definition UnaryServerInterceptor :=
  Ctx -> Req -> option UnaryServerInfo -> UnaryHandler -> Result.

(** The interceptor returned for an empty chain; it also stands for an
    index out of range in [interceptors[i]], which the loops never reach. *)
Definition dummy_UnaryServerInterceptor : UnaryServerInterceptor :=
  fun ctx req _ handler => handler ctx req.

(** The loop [for i := n - 1; i > 0; i--] of [ChainUnaryServer], entered at
    [i]: each round wraps the current handler in a call of
    [interceptors[i]]. *)
Fixpoint ChainUnaryServer_loop (interceptors : list UnaryServerInterceptor)
    (info : option UnaryServerInfo) (i : nat) (currHandler : UnaryHandler)
  : UnaryHandler :=
  match i with
  | O => currHandler
  | S i' =>
      let innerHandler := currHandler in
      ChainUnaryServer_loop interceptors info i'
        (fun currentCtx currentReq =>
           nth i interceptors dummy_UnaryServerInterceptor
             currentCtx currentReq info innerHandler)
  end.

(** [ChainUnaryServer] creates a single interceptor out of a chain of many
    interceptors. *)
Definition ChainUnaryServer (interceptors : list UnaryServerInterceptor)
  : UnaryServerInterceptor :=
  let n := length interceptors in
  if Nat.eqb n 0 then
    fun ctx req _ handler => handler ctx req
  else if Nat.eqb n 1 then
    nth 0 interceptors dummy_UnaryServerInterceptor
  else
    fun ctx req info handler =>
      let currHandler := ChainUnaryServer_loop interceptors info (n - 1) handler in
      nth 0 interceptors dummy_UnaryServerInterceptor ctx req info currHandler.

(** [ADNServerInfo], [ADNHandler] and [ADNServerProcessor] repeat the three
    types above under other names. *)
Record ADNServerInfo := {
  ADNServerInfo_Server : Srv;
  ADNServerInfo_FullMethod : string;
}.

Definition ADNHandler := Ctx -> Req -> Result.

Definition ADNServerProcessor :=
  Ctx -> Req -> option ADNServerInfo -> ADNHandler -> Result.

Definition dummy_ADNServerProcessor : ADNServerProcessor :=
  fun ctx req _ handler => handler ctx req.

Fixpoint ChainADNServerProcessor_loop (processors : list ADNServerProcessor)
    (info : option ADNServerInfo) (i : nat) (currHandler : ADNHandler)
  : ADNHandler :=
  match i with
  | O => currHandler
  | S i' =>
      let innerHandler := currHandler in
      ChainADNServerProcessor_loop processors info i'
        (fun currentCtx currentReq =>
           nth i processors dummy_ADNServerProcessor
             currentCtx currentReq info innerHandler)
  end.

(** [ChainADNServerProcessor] first prints a line with [log.Println]; the
    first component of the result is what the call logs. *)
Definition ChainADNServerProcessor (processors : list ADNServerProcessor)
  : list string * ADNServerProcessor :=
  let logged := ["Hello from UnaryServerInterceptor2"%string] in
  let n := length processors in
  if Nat.eqb n 0 then
    (logged, fun ctx req _ handler => handler ctx req)
  else if Nat.eqb n 1 then
    (logged, nth 0 processors dummy_ADNServerProcessor)
  else
    (logged,
     fun ctx req info handler =>
       let currHandler :=
         ChainADNServerProcessor_loop processors info (n - 1) handler in
       nth 0 processors dummy_ADNServerProcessor ctx req info currHandler).
End Server.

Section Client.
(** The request and reply values, [*ClientConn] and [CallOption] are left
    open; [Result] is the error the call returns, with its effects. *)
Context {Ctx Req Reply ClientConn CallOption Result : Type}.

Definition ADNInvoker :=
  Ctx -> string -> Req -> Reply -> ClientConn -> list CallOption -> Result.

Definition ADNClientProcessor :=
  Ctx -> string -> Req -> Reply -> ClientConn -> ADNInvoker -> list CallOption -> Result.

Definition dummy_ADNClientProcessor : ADNClientProcessor :=
  fun ctx method req reply cc invoker opts => invoker ctx method req reply cc opts.

Fixpoint ChainADNClientProcessors_loop (processors : list ADNClientProcessor)
    (i : nat) (currInvoker : ADNInvoker) : ADNInvoker :=
  match i with
  | O => currInvoker
  | S i' =>
      let innerInvoker := currInvoker in
      ChainADNClientProcessors_loop processors i'
        (fun currentCtx currentMethod currentReq currentRepl currentConn currentOpts =>
           nth i processors dummy_ADNClientProcessor
             currentCtx currentMethod currentReq currentRepl currentConn
             innerInvoker currentOpts)
  end.

(** [ChainADNClientProcessors] creates a single processor out of a chain of
    many processors. *)
Definition ChainADNClientProcessors (processors : list ADNClientProcessor)
  : ADNClientProcessor :=
  let n := length processors in
  if Nat.eqb n 0 then
    fun ctx method req reply cc invoker opts =>
      invoker ctx method req reply cc opts
  else if Nat.eqb n 1 then
    nth 0 processors dummy_ADNClientProcessor
  else
    fun ctx method req reply cc invoker opts =>
      let currInvoker := ChainADNClientProcessors_loop processors (n - 1) invoker in
      nth 0 processors dummy_ADNClientProcessor
        ctx method req reply cc currInvoker opts.
End Client.

Arguments UnaryServerInfo : clear implicits.
Arguments ADNServerInfo : clear implicits.
Arguments UnaryHandler : clear implicits.
Arguments UnaryServerInterceptor : clear implicits.
Arguments ADNHandler : clear implicits.
Arguments ADNServerProcessor : clear implicits.
Arguments ADNInvoker : clear implicits.
Arguments ADNClientProcessor : clear implicits.
End grpc.

(** ** The listener of the graceful-stop test ([test/gracefulstop_test.go]) *)

Module test.
Section delayListener.
(** [net.Listener], the channels, [context.Context] and [net.Conn] are left
    open; [Addr_String l] is [l.Addr().String()]. *)
Context {Listener Chan Ctx Conn : Type}.
Variable Addr_String : Listener -> string.

Record delayListener := {
  delayListener_Listener : Listener;
  closeCalled : Chan;
  acceptCalled : Chan;
  allowCloseCh : Chan;
  dialed : bool;
}.

(** What [Dial] returns: values of its own, or the result of the call
    [(&net.Dialer{}).DialContext(ctx, network, address)] it ends with. *)
Inductive Dial_result :=
| Dial_return (conn : option Conn) (err : option fmt.error)
| Dial_DialContext (ctx : Ctx) (network address : string).

(** [Dial] hands out one connection only; the first component is the
    listener after the call. *)
Definition Dial (d : delayListener) (ctx : Ctx) : delayListener * Dial_result :=
  if dialed d then
    (d, Dial_return None (Some (fmt.Errorf "no more conns" [])))
  else
    let d :=
      {| delayListener_Listener := delayListener_Listener d;
         closeCalled := closeCalled d;
         acceptCalled := acceptCalled d;
         allowCloseCh := allowCloseCh d;
         dialed := true |} in
    (d, Dial_DialContext ctx "tcp" (Addr_String (delayListener_Listener d))).
End delayListener.

Arguments delayListener : clear implicits.
Arguments Dial_result : clear implicits.
End test.

(** ** Vocabulary of the statements *)

Module eds.
Import fmt clusterresolver.

(** The priorities the localities of [m] declare, as a set. *)
Definition declared_priorities (m : xdspb.ClusterLoadAssignment) : gset N :=
  list_to_set (endpointpb.GetPriority <$> xdspb.Endpoints m).

(** [P] is exactly {0, ..., n-1}, with n the number of its elements. *)
Definition contiguous (P : gset N) : Prop :=
  ∀ p : N, p ∈ P ↔ (p < N.of_nat (size P))%N.

(** The declared priorities are [uint32] values. *)
Definition uint32_priorities (m : xdspb.ClusterLoadAssignment) : Prop :=
  Forall (fun locality => (endpointpb.GetPriority locality < 2 ^ 32)%N)
    (xdspb.Endpoints m).

Definition has_ID (locality : option endpointpb.LocalityLbEndpoints) : Prop :=
  is_Some (endpointpb.GetLocality locality).

(** What a source endpoint and the [Endpoint] built from it share. *)
Definition endpoint_from (src : option endpointpb.LbEndpoint)
    (dst : xdsresource.Endpoint) : Prop :=
  xdsresource.Address dst =
    parseAddress
      (corepb.Address_GetSocketAddress
         (endpointpb.Endpoint_GetAddress (endpointpb.LbEndpoint_GetEndpoint src))) ∧
  xdsresource.Endpoint_Weight dst =
    wrapperspb.GetValue (endpointpb.LbEndpoint_GetLoadBalancingWeight src) ∧
  xdsresource.HealthStatus dst = endpointpb.LbEndpoint_GetHealthStatus src.

(** What a source locality entry and the [Locality] built from it share. *)
Definition locality_from (src : option endpointpb.LocalityLbEndpoints)
    (dst : xdsresource.Locality) : Prop :=
  (∃ l, endpointpb.GetLocality src = Some l ∧
        internal.Region (xdsresource.ID dst) = endpointpb.Region l ∧
        internal.Zone (xdsresource.ID dst) = endpointpb.Zone l ∧
        internal.SubZone (xdsresource.ID dst) = endpointpb.SubZone l) ∧
  xdsresource.Weight dst =
    wrapperspb.GetValue (endpointpb.GetLoadBalancingWeight src) ∧
  xdsresource.Priority dst = endpointpb.GetPriority src ∧
  Forall2 endpoint_from (endpointpb.GetLbEndpoints src) (xdsresource.Endpoints dst).

(** The first [n] priorities. *)
Definition initial (n : nat) : gset N := list_to_set (N.of_nat <$> seq 0 n).
End eds.

(** Handlers and interceptors the statements about chains speak of. *)
Module chains.
Import grpc.

Section Server.
Context {Ctx Req Srv Result : Type}.

(** The handler that runs [interceptors] from left to right and then
    [handler]. *)
Definition wrap (interceptors : list (UnaryServerInterceptor Ctx Req Srv Result))
    (info : option (UnaryServerInfo Srv)) (handler : UnaryHandler Ctx Req Result)
  : UnaryHandler Ctx Req Result :=
  fold_right
    (fun interceptor curr => fun ctx req => interceptor ctx req info curr)
    handler interceptors.

(** An interceptor that changes the context by [f] and goes on. *)
Definition with_context (f : Ctx -> Ctx) : UnaryServerInterceptor Ctx Req Srv Result :=
  fun ctx req _ handler => handler (f ctx) req.

(** An interceptor that answers by itself and never calls its handler. *)
Definition respond (answer : Ctx -> Req -> option (UnaryServerInfo Srv) -> Result)
  : UnaryServerInterceptor Ctx Req Srv Result :=
  fun ctx req info _ => answer ctx req info.

Definition wrap_ADN (processors : list (ADNServerProcessor Ctx Req Srv Result))
    (info : option (ADNServerInfo Srv)) (handler : ADNHandler Ctx Req Result)
  : ADNHandler Ctx Req Result :=
  fold_right
    (fun processor curr => fun ctx req => processor ctx req info curr)
    handler processors.
End Server.

Section Client.
Context {Ctx Req Reply ClientConn CallOption Result : Type}.

(** The invoker that runs [processors] from left to right and then
    [invoker]. *)
Definition wrap_client
    (processors : list (ADNClientProcessor Ctx Req Reply ClientConn CallOption Result))
    (invoker : ADNInvoker Ctx Req Reply ClientConn CallOption Result)
  : ADNInvoker Ctx Req Reply ClientConn CallOption Result :=
  fold_right
    (fun processor curr =>
       fun ctx method req reply cc opts =>
         processor ctx method req reply cc curr opts)
    invoker processors.
End Client.
End chains.

(** The events a watcher is told of, and their delivery in sequence. *)
Module watch.
Import xdsresource.

Section Events.
Context {SecurityConfig Fields error W : Type}.
Context `{!ClusterWatcher SecurityConfig Fields error W}.

(** An event as the generic watcher interface has it. *)
Inductive event :=
| Update (data : ResourceData SecurityConfig Fields)
| Error (err : error)
| DoesNotExist.

(** The same event as the [ClusterWatcher] sees it, when the update is a
    cluster resource. *)
Definition typed (w : W) (ev : event) : option W :=
  match ev with
  | Update (iface_cluster c) => Some (ClusterWatcher_OnUpdate w c)
  | Update _ => None
  | Error err => Some (ClusterWatcher_OnError w err)
  | DoesNotExist => Some (ClusterWatcher_OnResourceDoesNotExist w)
  end.

(** One event handed to the delegating watcher. *)
Definition deliver (d : delegatingClusterWatcher W) (ev : event)
  : option (delegatingClusterWatcher W) :=
  match ev with
  | Update data => OnUpdate d data
  | Error err => Some (OnError d err)
  | DoesNotExist => Some (OnResourceDoesNotExist d)
  end.

(** Events handed over one after the other; a panic ends the run. *)
Fixpoint deliver_all (d : delegatingClusterWatcher W) (evs : list event)
  : option (delegatingClusterWatcher W) :=
  match evs with
  | [] => Some d
  | ev :: rest =>
      match deliver d ev with
      | Some d' => deliver_all d' rest
      | None => None
      end
  end.

Fixpoint typed_all (w : W) (evs : list event) : option W :=
  match evs with
  | [] => Some w
  | ev :: rest =>
      match typed w ev with
      | Some w' => typed_all w' rest
      | None => None
      end
  end.

Definition is_cluster_update (ev : event) : Prop :=
  match ev with
  | Update (iface_cluster _) => True
  | Update _ => False
  | _ => True
  end.
End Events.

Arguments event : clear implicits.
End watch.

(** Calls of [Dial] one after the other. *)
Module dialing.
Import test.

Section Dials.
Context {Listener Chan Ctx Conn : Type}.
Variable Addr_String : Listener -> string.

Fixpoint Dials (d : delayListener Listener Chan) (ctxs : list Ctx)
  : delayListener Listener Chan * list (Dial_result Ctx Conn) :=
  match ctxs with
  | [] => (d, [])
  | ctx :: rest =>
      let '(d', r) := Dial (Conn:=Conn) Addr_String d ctx in
      let '(d'', rs) := Dials d' rest in
      (d'', r :: rs)
  end.

Definition no_more_conns : Dial_result Ctx Conn :=
  Dial_return None (Some (fmt.Errorf "no more conns" [])).
End Dials.
End dialing.

(** ** Sample inputs *)

Module samples.
(** A drop policy "lb" of 50 over the unit [tag]. *)
Definition drop_with (tag : typepb.FractionalPercent_DenominatorType)
  : option xdspb.ClusterLoadAssignment_Policy_DropOverload :=
  Some {| xdspb.Category := "lb";
          xdspb.DropPercentage :=
            Some {| typepb.Numerator := 50; typepb.Denominator := tag |} |}.

Definition backend : option endpointpb.LbEndpoint :=
  Some {| endpointpb.LbEndpoint_HostIdentifier :=
            Some (endpointpb.LbEndpoint_Endpoint
              (Some {| endpointpb.Endpoint_Address :=
                 Some {| corepb.Address_Address :=
                   Some (corepb.Address_SocketAddress
                     (Some {| corepb.SocketAddress_Address := "10.0.0.1";
                              corepb.SocketAddress_PortSpecifier :=
                                Some (corepb.SocketAddress_PortValue 8080) |})) |} |}));
          endpointpb.LbEndpoint_HealthStatus := 1%Z;
          endpointpb.LbEndpoint_LoadBalancingWeight :=
            Some {| wrapperspb.Value := 7 |} |}.

Definition region_a : endpointpb.Locality :=
  {| endpointpb.Region := "r"; endpointpb.Zone := "z"; endpointpb.SubZone := "s" |}.

(** A locality entry at [priority], with or without an identifier. *)
Definition entry (id : option endpointpb.Locality) (priority : N)
  : option endpointpb.LocalityLbEndpoints :=
  Some {| endpointpb.LocalityLbEndpoints_Locality := id;
          endpointpb.LocalityLbEndpoints_LbEndpoints := [backend];
          endpointpb.LocalityLbEndpoints_LoadBalancingWeight :=
            Some {| wrapperspb.Value := 3 |};
          endpointpb.LocalityLbEndpoints_Priority := priority |}.

Definition assignment
    (drops : list (option xdspb.ClusterLoadAssignment_Policy_DropOverload))
    (entries : list (option endpointpb.LocalityLbEndpoints))
  : xdspb.ClusterLoadAssignment :=
  {| xdspb.Endpoints := entries;
     xdspb.Policy := Some {| xdspb.DropOverloads := drops |} |}.

(** Two localities at priorities 0 and 1, no drops. *)
Definition two_priorities : xdspb.ClusterLoadAssignment :=
  assignment [] [entry (Some region_a) 0; entry (Some region_a) 1].

(** Localities at priorities 0 and 2: priority 1 is missing. *)
Definition gap_at_1 : xdspb.ClusterLoadAssignment :=
  assignment [drop_with typepb.FractionalPercent_HUNDRED]
    [entry (Some region_a) 0; entry (Some region_a) 2].

(** Three localities, two of them at priority 1. *)
Definition shared_priority : xdspb.ClusterLoadAssignment :=
  assignment [drop_with typepb.FractionalPercent_MILLION]
    [entry (Some region_a) 1; entry (Some region_a) 1; entry (Some region_a) 0].

(** The second and the third locality have no identifier. *)
Definition two_without_ID : xdspb.ClusterLoadAssignment :=
  assignment [drop_with typepb.FractionalPercent_HUNDRED]
    [entry (Some region_a) 0; entry None 2; entry None 1].

(** Localities at priorities 0, 2 and 5, the last one without an
    identifier: priority 1 is missing, among the priorities of all three
    and among those of the first two alike. *)
Definition gap_without_ID : xdspb.ClusterLoadAssignment :=
  assignment [] [entry (Some region_a) 0; entry (Some region_a) 2; entry None 5].

(** A toy instance of the cluster side.  The security configuration is a
    flag (is it acceptable?), the other decoded fields are the bytes after
    the first, the bootstrap configuration is empty and an error is its
    message. *)
#[global] Instance bool_zero : ZeroValue bool := false.
#[global] Instance bytes_zero : ZeroValue (list Byte.byte) := [].

Definition toy_ClusterUpdate := xdsresource.ClusterUpdate bool (list Byte.byte).
Definition toy_ResourceData := xdsresource.ResourceData bool (list Byte.byte).
Definition toy_ClusterResourceData :=
  xdsresource.ClusterResourceData bool (list Byte.byte).

(** Envelopes of another type and empty payloads do not deserialize; a
    payload starting with 00 deserializes to an invalid cluster "c0"; any
    other payload deserializes to the cluster "c1", whose security
    configuration is acceptable when the payload starts with 01. *)
Definition toy_unmarshal (r : option anypb.Any)
  : string * toy_ClusterUpdate * option string :=
  match r with
  | None => (EmptyString, zero_value, Some "failed to unwrap resource"%string)
  | Some a =>
      if String.eqb (anypb.TypeUrl a) (xdsresource.TypeURL xdsresource.clusterType)
      then
        match anypb.Value a with
        | [] => (EmptyString, zero_value, Some "failed to unmarshal resource"%string)
        | b :: rest =>
            if Byte.eqb b Byte.x00
            then ("c0"%string, zero_value, Some "invalid cluster"%string)
            else ("c1"%string,
                  {| xdsresource.SecurityCfg := Byte.eqb b Byte.x01;
                     xdsresource.Raw := Some a;
                     xdsresource.OtherFields := rest |},
                  None)
        end
      else (EmptyString, zero_value, Some "unexpected resource type"%string)
  end.

Definition toy_validator (_ : unit) (acceptable : bool) : option string :=
  if acceptable then None else Some "security config rejected"%string.

Definition toy_Decode :=
  xdsresource.Decode toy_unmarshal toy_validator xdsresource.clusterType.

Definition toy_opts : option (xdsresource.DecodeOptions unit) :=
  Some {| xdsresource.BootstrapConfig := tt |}.

Definition envelope (payload : list Byte.byte) : option anypb.Any :=
  Some {| anypb.TypeUrl := "type.googleapis.com/envoy.config.cluster.v3.Cluster";
          anypb.Value := payload |}.

Definition foreign_envelope : option anypb.Any :=
  Some {| anypb.TypeUrl := "type.googleapis.com/envoy.config.listener.v3.Listener";
          anypb.Value := [Byte.x01] |}.


(** An unmarshaller that decodes less than [toy_unmarshal] does: it keeps
    the envelope, takes every security configuration for acceptable and
    reads no other field. *)
Definition lax_unmarshal (r : option anypb.Any)
  : string * toy_ClusterUpdate * option string :=
  match r with
  | None => (EmptyString, zero_value, Some "failed to unwrap resource"%string)
  | Some a =>
      ("c1"%string,
       {| xdsresource.SecurityCfg := true;
          xdsresource.Raw := Some a;
          xdsresource.OtherFields := [] |},
       None)
  end.

(** A validator that accepts every security configuration. *)
Definition lax_validator (_ : unit) (_ : bool) : option string := None.

(** A cluster resource with the raw envelope [raw] and other decoded
    fields [fields]. *)
Definition resource_of (raw : option anypb.Any) (fields : list Byte.byte)
  : toy_ClusterResourceData :=
  xdsresource.Build_ClusterResourceData xdsresource.iface_nil
    {| xdsresource.SecurityCfg := true;
       xdsresource.Raw := raw;
       xdsresource.OtherFields := fields |}.

(** A watcher that records the updates it is given, latest first. *)
#[global] Instance recording_watcher
  : xdsresource.ClusterWatcher bool (list Byte.byte) string
      (list (option toy_ClusterResourceData)) :=
  {| xdsresource.ClusterWatcher_OnUpdate := fun seen c => c :: seen;
     xdsresource.ClusterWatcher_OnError := fun seen _ => seen;
     xdsresource.ClusterWatcher_OnResourceDoesNotExist := fun seen => seen |}.

Definition fresh_delegator
  : xdsresource.delegatingClusterWatcher (list (option toy_ClusterResourceData)) :=
  {| xdsresource.watcher := [] |}.

(** The localities of [shared_priority] in reverse order, without drops. *)
Definition reordered_priority : xdspb.ClusterLoadAssignment :=
  assignment [] [entry (Some region_a) 0; entry (Some region_a) 1; entry (Some region_a) 1].

(** Two socket addresses of the host "h": one with no port set, one with
    the port value 0. *)
Definition port_unset : option corepb.SocketAddress :=
  Some {| corepb.SocketAddress_Address := "h";
          corepb.SocketAddress_PortSpecifier := None |}.

Definition port_zero : option corepb.SocketAddress :=
  Some {| corepb.SocketAddress_Address := "h";
          corepb.SocketAddress_PortSpecifier := Some (corepb.SocketAddress_PortValue 0) |}.
End samples.

(** ** The EDS parser *)

Module clusterresolver_spec.
Import fmt clusterresolver eds samples.

Lemma fold_left_snoc {A B : Type} (f : A -> B) (l : list A) (acc : list B) :
  fold_left (fun acc x => acc ++ [f x]) l acc = acc ++ (f <$> l).
Proof.
  revert acc. induction l as [|x l IH]; intros acc; simpl.
  - by rewrite app_nil_r.
  - rewrite IH. by rewrite <- app_assoc.
Qed.

Lemma parseEndpoints_fmap lbEndpoints :
  parseEndpoints lbEndpoints = parseEndpoint <$> lbEndpoints.
Proof. unfold parseEndpoints. by rewrite fold_left_snoc. Qed.

Lemma parseEndpoints_from lbEndpoints :
  Forall2 endpoint_from lbEndpoints (parseEndpoints lbEndpoints).
Proof.
  rewrite parseEndpoints_fmap.
  induction lbEndpoints as [|e es IH]; simpl; constructor; [|done].
  by repeat split.
Qed.

Lemma drops_loop_Drops dropPolicies ret :
  xdsresource.Drops (drops_loop dropPolicies ret) =
    xdsresource.Drops ret ++ (parseDropPolicy <$> dropPolicies).
Proof.
  unfold drops_loop. revert ret.
  induction dropPolicies as [|d ds IH]; intros ret; simpl.
  - by rewrite app_nil_r.
  - rewrite IH. simpl. by rewrite <- app_assoc.
Qed.

Lemma drops_loop_Localities dropPolicies ret :
  xdsresource.Localities (drops_loop dropPolicies ret) = xdsresource.Localities ret.
Proof.
  unfold drops_loop. revert ret.
  induction dropPolicies as [|d ds IH]; intros ret; simpl; [done|].
  by rewrite IH.
Qed.

(** The locality loop returns early exactly at the first entry without an
    identifier. *)
Lemma localities_loop_abort pre locality post ret priorities :
  Forall has_ID pre ->
  endpointpb.GetLocality locality = None ->
  localities_loop (pre ++ locality :: post) ret priorities =
    inl (Errorf locality_without_ID [of_locality locality]).
Proof.
  intros Hpre Hloc. revert ret priorities.
  induction Hpre as [|x pre [l Hl] _ IH]; intros ret priorities; simpl.
  - by rewrite Hloc.
  - rewrite Hl. apply IH.
Qed.

Lemma localities_loop_inl localities ret priorities err :
  localities_loop localities ret priorities = inl err ->
  ∃ pre locality post,
    localities = pre ++ locality :: post ∧ Forall has_ID pre ∧
    endpointpb.GetLocality locality = None ∧
    err = Errorf locality_without_ID [of_locality locality].
Proof.
  revert ret priorities.
  induction localities as [|x ls IH]; intros ret priorities; simpl; [done|].
  destruct (endpointpb.GetLocality x) as [l|] eqn:Hx.
  - intros (pre & loc & post & -> & Hpre & Hloc & ->)%IH.
    exists (x :: pre), loc, post. repeat split; try done.
    constructor; [by eexists | done].
  - intros [= <-]. exists [], x, ls. repeat split; try done.
Qed.

(** When the loop runs to its end, every entry had an identifier, one
    [Locality] was appended per entry, in order, and the priorities seen
    were added to the set. *)
Lemma localities_loop_inr localities ret priorities ret' priorities' :
  localities_loop localities ret priorities = inr (ret', priorities') ->
  Forall has_ID localities ∧
  xdsresource.Drops ret' = xdsresource.Drops ret ∧
  (∃ new, xdsresource.Localities ret' = xdsresource.Localities ret ++ new ∧
          Forall2 locality_from localities new) ∧
  priorities' = list_to_set (endpointpb.GetPriority <$> localities) ∪ priorities.
Proof.
  revert ret priorities.
  induction localities as [|x ls IH]; intros ret priorities; simpl.
  - intros [= <- <-]. repeat split; [constructor|..].
    + exists []. split; [by rewrite app_nil_r | constructor].
    + by rewrite (left_id_L ∅ (∪)).
  - destruct (endpointpb.GetLocality x) as [l|] eqn:Hx; [|done].
    intros (Hall & Hd & (new & Hnew & Hrel) & Hp)%IH. simpl in *.
    repeat split.
    + constructor; [by eexists | done].
    + done.
    + eexists (_ :: new). split.
      * rewrite Hnew, <- app_assoc. reflexivity.
      * constructor; [|done].
        unfold locality_from; simpl.
        repeat split; try done; [|apply parseEndpoints_from].
        exists l. by rewrite Hx.
    + rewrite Hp, (assoc_L (∪)). f_equal. apply (comm_L (∪)).
Qed.

Lemma localities_loop_total localities ret priorities :
  Forall has_ID localities ->
  ∃ ret', localities_loop localities ret priorities =
    inr (ret', list_to_set (endpointpb.GetPriority <$> localities) ∪ priorities).
Proof.
  intros Hall.
  destruct (localities_loop localities ret priorities) as [err|[ret' P]] eqn:E.
  - apply localities_loop_inl in E as (pre & loc & post & -> & _ & Hloc & _).
    apply Forall_app in Hall as [_ Hall]. apply Forall_cons in Hall as [[l Hl] _].
    congruence.
  - exists ret'. by apply localities_loop_inr in E as (_ & _ & _ & ->).
Qed.

(** *** The priority check *)

(** Below 2^32 the conversion to [uint32] does not wrap. *)
Lemma uint32_small (k : nat) :
  (Z.of_nat k < 2 ^ 32)%Z -> uint32 (Z.of_nat k) = N.of_nat k.
Proof. intros Hk. unfold uint32. rewrite Z.mod_small by lia. lia. Qed.

Lemma priorities_loop_None priorities todo i :
  priorities_loop priorities todo i = None ↔
  ∀ k : nat, (k < todo)%nat -> uint32 (i + Z.of_nat k) ∈ priorities.
Proof.
  revert i. induction todo as [|todo IH]; intros i; simpl.
  - split; [intros _ k Hk; lia | done].
  - case_bool_decide as Hi.
    + rewrite IH. split.
      * intros H [|k] Hk; [by rewrite Z.add_0_r|].
        replace (i + Z.of_nat (S k))%Z with (i + 1 + Z.of_nat k)%Z by lia.
        apply H. lia.
      * intros H k Hk.
        replace (i + 1 + Z.of_nat k)%Z with (i + Z.of_nat (S k))%Z by lia.
        apply H. lia.
    + split; [done|]. intros H. exfalso. apply Hi.
      specialize (H 0%nat). rewrite Z.add_0_r in H. apply H. lia.
Qed.

(** The error of the priority check names the least index missing from the
    set, and the set. *)
Lemma priorities_loop_Some priorities todo i err :
  priorities_loop priorities todo i = Some err ->
  ∃ k : nat, (k < todo)%nat ∧
    (uint32 (i + Z.of_nat k) ∉ priorities) ∧
    (∀ j : nat, (j < k)%nat -> uint32 (i + Z.of_nat j) ∈ priorities) ∧
    err = Errorf priority_missing [of_int (i + Z.of_nat k); of_priorities priorities].
Proof.
  revert i. induction todo as [|todo IH]; intros i; simpl; [done|].
  case_bool_decide as Hi.
  - intros (k & Hk & Hmiss & Hbelow & ->)%IH. exists (S k).
    replace (i + Z.of_nat (S k))%Z with (i + 1 + Z.of_nat k)%Z by lia.
    repeat split; [lia | done |].
    intros [|j] Hj; [by rewrite Z.add_0_r|].
    replace (i + Z.of_nat (S j))%Z with (i + 1 + Z.of_nat j)%Z by lia.
    apply Hbelow. lia.
  - intros [= <-]. exists 0%nat. rewrite Z.add_0_r.
    repeat split; [lia | done | intros j Hj; lia].
Qed.

Lemma elem_of_initial (n : nat) (p : N) : p ∈ initial n ↔ (p < N.of_nat n)%N.
Proof.
  unfold initial. rewrite elem_of_list_to_set, list_elem_of_fmap. split.
  - intros (k & -> & Hk). apply elem_of_seq in Hk. lia.
  - intros Hp. exists (N.to_nat p). split; [lia|]. apply elem_of_seq. lia.
Qed.

Lemma size_initial (n : nat) : size (initial n) = n.
Proof.
  unfold initial. rewrite size_list_to_set.
  - by rewrite length_fmap, length_seq.
  - apply NoDup_fmap; [apply _ | apply NoDup_seq].
Qed.

Lemma size_below (P : gset N) (B : nat) :
  (∀ p, p ∈ P -> (p < N.of_nat B)%N) -> (size P <= B)%nat.
Proof.
  intros HP. rewrite <- (size_initial B). apply subseteq_size.
  intros p Hp. apply elem_of_initial. by apply HP.
Qed.

(** A set that contains the first [size P] numbers is that initial segment. *)
Lemma contiguous_intro (P : gset N) :
  (∀ k : nat, (k < size P)%nat -> N.of_nat k ∈ P) -> contiguous P.
Proof.
  intros HP.
  assert (initial (size P) = P) as Heq.
  { apply set_subseteq_size_eq.
    - intros p Hp. apply elem_of_initial in Hp.
      replace p with (N.of_nat (N.to_nat p)) by lia. apply HP. lia.
    - by rewrite size_initial. }
  intros p. rewrite <- Heq at 1. apply elem_of_initial.
Qed.

Lemma contiguous_elim (P : gset N) (k : nat) :
  contiguous P -> (k < size P)%nat -> N.of_nat k ∈ P.
Proof. intros HP Hk. apply HP. lia. Qed.

Lemma declared_below (m : xdspb.ClusterLoadAssignment) :
  uint32_priorities m ->
  ∀ p, p ∈ declared_priorities m -> (p < 2 ^ 32)%N.
Proof.
  unfold uint32_priorities, declared_priorities. intros Hm p.
  rewrite elem_of_list_to_set, list_elem_of_fmap. intros (l & -> & Hl).
  rewrite Forall_forall in Hm. by apply Hm.
Qed.

(** A set of [uint32] values has at most 2^32 elements, so the loop
    counter stays below 2^32. *)
Lemma size_uint32 (P : gset N) :
  (∀ p, p ∈ P -> (p < 2 ^ 32)%N) -> (Z.of_nat (size P) <= 2 ^ 32)%Z.
Proof.
  intros Hbound.
  assert (size P <= N.to_nat (2 ^ 32))%nat as Hsize; [|lia].
  apply size_below. intros p Hp. specialize (Hbound p Hp). lia.
Qed.

(** On [uint32] priorities the check passes exactly on contiguous sets. *)
Lemma priorities_loop_contiguous (P : gset N) :
  (∀ p, p ∈ P -> (p < 2 ^ 32)%N) ->
  priorities_loop P (size P) 0 = None ↔ contiguous P.
Proof.
  intros Hbound. pose proof (size_uint32 P Hbound) as Hsize.
  rewrite priorities_loop_None. split.
  - intros H. apply contiguous_intro. intros k Hk.
    rewrite <- uint32_small by lia. rewrite <- (Z.add_0_l (Z.of_nat k)). by apply H.
  - intros H k Hk. rewrite Z.add_0_l, uint32_small by lia.
    by apply contiguous_elim.
Qed.

(** *** The parse as a whole *)

Lemma parseEDSRespProto_unfold (m : xdspb.ClusterLoadAssignment) :
  parseEDSRespProto (Some m) =
    match localities_loop (xdspb.Endpoints m)
            (drops_loop (xdspb.GetDropOverloads (xdspb.Policy m)) zero_value) ∅ with
    | inl err => Some (zero_value, Some err)
    | inr (ret, priorities) =>
        match priorities_loop priorities (size priorities) 0 with
        | Some err => Some (zero_value, Some err)
        | None => Some (ret, None)
        end
    end.
Proof. reflexivity. Qed.

(** A non-nil input never panics, and an error comes with the zero value. *)
Lemma parseEDSRespProto_result (m : xdspb.ClusterLoadAssignment) :
  (∃ u, parseEDSRespProto (Some m) = Some (u, None)) ∨
  (∃ err, parseEDSRespProto (Some m) = Some (zero_value, Some err)).
Proof.
  rewrite parseEDSRespProto_unfold.
  destruct (localities_loop _ _ _) as [err|[ret P]]; [right; by eexists|].
  destruct (priorities_loop _ _ _) as [err|]; [right|left]; by eexists.
Qed.

Lemma first_without_ID (localities : list (option endpointpb.LocalityLbEndpoints)) :
  Exists (fun locality => endpointpb.GetLocality locality = None) localities ->
  ∃ pre locality post,
    localities = pre ++ locality :: post ∧ Forall has_ID pre ∧
    endpointpb.GetLocality locality = None.
Proof.
  induction 1 as [x ls Hx|x ls _ IH].
  - exists [], x, ls. by repeat split.
  - destruct (endpointpb.GetLocality x) as [l|] eqn:Hx.
    + destruct IH as (pre & loc & post & -> & Hpre & Hloc).
      exists (x :: pre), loc, post. repeat split; [|done].
      constructor; [by eexists | done].
    + exists [], x, ls. by repeat split.
Qed.

(** The parse succeeds exactly when every locality has an identifier and
    the declared priorities are contiguous. *)
Lemma parseEDSRespProto_ok_iff (m : xdspb.ClusterLoadAssignment) :
  uint32_priorities m ->
  (∃ u, parseEDSRespProto (Some m) = Some (u, None)) ↔
  Forall has_ID (xdspb.Endpoints m) ∧ contiguous (declared_priorities m).
Proof.
  intros Hm. pose proof (declared_below m Hm) as Hbound.
  rewrite parseEDSRespProto_unfold. split.
  - intros [u Hu].
    destruct (localities_loop _ _ _) as [err|[ret P]] eqn:E; [done|].
    apply localities_loop_inr in E as (Hall & _ & _ & ->).
    rewrite (right_id_L ∅ (∪)) in Hu. split; [done|].
    apply priorities_loop_contiguous; [done|].
    fold (declared_priorities m) in Hu.
    by destruct (priorities_loop _ _ _).
  - intros [Hall Hc].
    destruct (localities_loop_total _
                (drops_loop (xdspb.GetDropOverloads (xdspb.Policy m)) zero_value)
                ∅ Hall) as [ret ->].
    rewrite (right_id_L ∅ (∪)). fold (declared_priorities m).
    apply priorities_loop_contiguous in Hc as ->; [by eexists | done].
Qed.

(** C6: [parseDropPolicy] copies the category and the numerator of the
    policy, maps the denominator tag HUNDRED to 100, TEN_THOUSAND to 10000
    and MILLION to 1000000, and leaves the denominator at zero, never at
    another value, for every other tag. *)
Theorem parseDropPolicy_exact
    (dropPolicy : option xdspb.ClusterLoadAssignment_Policy_DropOverload) :
  let percentage := xdspb.GetDropPercentage dropPolicy in
  let tag := typepb.GetDenominator percentage in
  let cfg := parseDropPolicy dropPolicy in
  xdsresource.Category cfg = xdspb.GetCategory dropPolicy ∧
  xdsresource.Numerator cfg = typepb.GetNumerator percentage ∧
  (tag = typepb.FractionalPercent_HUNDRED -> xdsresource.Denominator cfg = 100%N) ∧
  (tag = typepb.FractionalPercent_TEN_THOUSAND ->
     xdsresource.Denominator cfg = 10000%N) ∧
  (tag = typepb.FractionalPercent_MILLION ->
     xdsresource.Denominator cfg = 1000000%N) ∧
  (tag ≠ typepb.FractionalPercent_HUNDRED ->
   tag ≠ typepb.FractionalPercent_TEN_THOUSAND ->
   tag ≠ typepb.FractionalPercent_MILLION ->
     xdsresource.Denominator cfg = 0%N).
Proof.
  simpl. repeat split; try (intros ->; reflexivity).
  intros H0 H1 H2.
  rewrite <- Z.eqb_neq in H0, H1, H2. by rewrite H0, H1, H2.
Qed.

Lemma parseDropPolicy_exact_witness :
  parseDropPolicy (drop_with typepb.FractionalPercent_HUNDRED) =
    {| xdsresource.Category := "lb"; xdsresource.Numerator := 50;
       xdsresource.Denominator := 100 |} ∧
  xdsresource.Denominator (parseDropPolicy (drop_with typepb.FractionalPercent_TEN_THOUSAND)) = 10000%N ∧
  xdsresource.Denominator (parseDropPolicy (drop_with typepb.FractionalPercent_MILLION)) = 1000000%N ∧
  xdsresource.Denominator (parseDropPolicy (drop_with 3%Z)) = 0%N ∧
  xdsresource.Denominator (parseDropPolicy (drop_with (-1)%Z)) = 0%N.
Proof.
  split; [reflexivity|]. split; [|split; [|split]].
  - apply (parseDropPolicy_exact (drop_with typepb.FractionalPercent_TEN_THOUSAND)).
    reflexivity.
  - apply (parseDropPolicy_exact (drop_with typepb.FractionalPercent_MILLION)).
    reflexivity.
  - apply (parseDropPolicy_exact (drop_with 3%Z)); simpl; discriminate.
  - apply (parseDropPolicy_exact (drop_with (-1)%Z)); simpl; discriminate.
Defined.

(** C3: when some locality entry has no identifier, the parse stops at the
    first such entry and returns the zero-value [EndpointsUpdate] with an
    error built from that entry in full. *)
Theorem parseEDSRespProto_without_ID (m : xdspb.ClusterLoadAssignment) :
  Exists (fun locality => endpointpb.GetLocality locality = None)
    (xdspb.Endpoints m) ->
  ∃ pre locality post,
    xdspb.Endpoints m = pre ++ locality :: post ∧
    Forall has_ID pre ∧
    endpointpb.GetLocality locality = None ∧
    parseEDSRespProto (Some m) =
      Some ({| xdsresource.Drops := []; xdsresource.Localities := [] |},
            Some (Errorf locality_without_ID [of_locality locality])).
Proof.
  intros (pre & loc & post & Hm & Hpre & Hloc)%first_without_ID.
  exists pre, loc, post. repeat split; try done.
  rewrite parseEDSRespProto_unfold, Hm.
  by rewrite (localities_loop_abort pre loc post _ _ Hpre Hloc).
Qed.

Lemma parseEDSRespProto_without_ID_witness :
  ∃ pre locality post,
    xdspb.Endpoints two_without_ID = pre ++ locality :: post ∧
    Forall has_ID pre ∧
    endpointpb.GetLocality locality = None ∧
    parseEDSRespProto (Some two_without_ID) =
      Some ({| xdsresource.Drops := []; xdsresource.Localities := [] |},
            Some (Errorf locality_without_ID [of_locality locality])).
Proof.
  apply (parseEDSRespProto_without_ID two_without_ID).
  simpl. apply Exists_cons_tl, Exists_cons_hd. reflexivity.
Defined.

(** The entry reported for [two_without_ID] is the second one. *)
Example parseEDSRespProto_two_without_ID :
  parseEDSRespProto (Some two_without_ID) =
    Some ({| xdsresource.Drops := []; xdsresource.Localities := [] |},
          Some (Errorf locality_without_ID [of_locality (entry None 2)])).
Proof. reflexivity. Qed.

Lemma parseAddress_plain (socketAddress : option corepb.SocketAddress) :
  net.has_colon (corepb.SocketAddress_GetAddress socketAddress) = false ->
  parseAddress socketAddress =
    (corepb.SocketAddress_GetAddress socketAddress ++ ":" ++
     strconv.Itoa (Z.of_N (corepb.SocketAddress_GetPortValue socketAddress)))%string.
Proof. intros H. unfold parseAddress, net.JoinHostPort. by rewrite H. Qed.

(** C8: on success the drops are the source drop policies, parsed one by
    one in source order; the localities are the source locality entries in
    source order, each with its identifier, weight, priority and one
    endpoint per source endpoint (address joined from host and port,
    weight, health status); a host without a colon gives "host:port"; and
    an input without localities and without drop policies parses to the
    empty update with a nil error. *)
Theorem parseEDSRespProto_shape :
  (∀ (m : xdspb.ClusterLoadAssignment) (u : xdsresource.EndpointsUpdate),
     parseEDSRespProto (Some m) = Some (u, None) ->
     xdsresource.Drops u =
       parseDropPolicy <$> xdspb.GetDropOverloads (xdspb.Policy m) ∧
     Forall2 locality_from (xdspb.Endpoints m) (xdsresource.Localities u)) ∧
  (∀ socketAddress : option corepb.SocketAddress,
     net.has_colon (corepb.SocketAddress_GetAddress socketAddress) = false ->
     parseAddress socketAddress =
       (corepb.SocketAddress_GetAddress socketAddress ++ ":" ++
        strconv.Itoa (Z.of_N (corepb.SocketAddress_GetPortValue socketAddress)))%string) ∧
  (∀ policy : option xdspb.ClusterLoadAssignment_Policy,
     xdspb.GetDropOverloads policy = [] ->
     parseEDSRespProto (Some {| xdspb.Endpoints := []; xdspb.Policy := policy |}) =
       Some ({| xdsresource.Drops := []; xdsresource.Localities := [] |}, None)).
Proof.
  split; [|split].
  - intros m u. rewrite parseEDSRespProto_unfold.
    destruct (localities_loop _ _ _) as [err|[ret P]] eqn:E; [done|].
    destruct (priorities_loop _ _ _); [done|]. intros [= <-].
    apply localities_loop_inr in E as (_ & Hd & (new & Hnew & Hrel) & _).
    rewrite Hd, drops_loop_Drops, Hnew, drops_loop_Localities. by split.
  - apply parseAddress_plain.
  - intros policy Hp. rewrite parseEDSRespProto_unfold. simpl. by rewrite Hp.
Qed.

Lemma parseEDSRespProto_shape_witness :
  (xdsresource.Drops <$> parseEDSRespProtoForTesting (Some shared_priority)) =
    Some [ {| xdsresource.Category := "lb"; xdsresource.Numerator := 50;
              xdsresource.Denominator := 1000000 |} ] ∧
  (∃ u, parseEDSRespProto (Some shared_priority) = Some (u, None) ∧
        Forall2 locality_from (xdspb.Endpoints shared_priority)
          (xdsresource.Localities u)) ∧
  parseAddress (Some {| corepb.SocketAddress_Address := "10.0.0.1";
                        corepb.SocketAddress_PortSpecifier :=
                          Some (corepb.SocketAddress_PortValue 8080) |}) =
    "10.0.0.1:8080"%string ∧
  parseEDSRespProto (Some {| xdspb.Endpoints := []; xdspb.Policy := None |}) =
    Some ({| xdsresource.Drops := []; xdsresource.Localities := [] |}, None).
Proof.
  destruct parseEDSRespProto_shape as (Hshape & Haddr & Hempty).
  split; [reflexivity|]. split; [|split].
  - eexists. split; [reflexivity|]. by apply Hshape.
  - by rewrite Haddr.
  - by apply Hempty.
Defined.

Lemma not_contiguous_gap (P : gset N) (k : nat) :
  (k < size P)%nat -> N.of_nat k ∉ P -> ¬ contiguous P.
Proof. intros Hk Hmiss Hc. apply Hmiss. by apply contiguous_elim. Qed.

(** C2, as amended: a nil error is returned only when the declared
    priorities are exactly {0, ..., N-1}, N being their number (several
    localities may share a priority); when they are not, the result is the
    zero-value update with an error; and when, besides, every locality has
    an identifier, that error names the least missing priority and the set
    of the declared priorities. *)
Theorem parseEDSRespProto_priorities (m : xdspb.ClusterLoadAssignment) :
  uint32_priorities m ->
  let P := declared_priorities m in
  (∀ u, parseEDSRespProto (Some m) = Some (u, None) -> contiguous P) ∧
  (¬ contiguous P ->
     ∃ err, parseEDSRespProto (Some m) =
              Some ({| xdsresource.Drops := []; xdsresource.Localities := [] |},
                    Some err)) ∧
  (Forall has_ID (xdspb.Endpoints m) -> ¬ contiguous P ->
     ∃ k : nat,
       (k < size P)%nat ∧ (N.of_nat k ∉ P) ∧
       (∀ j : nat, (j < k)%nat -> N.of_nat j ∈ P) ∧
       parseEDSRespProto (Some m) =
         Some ({| xdsresource.Drops := []; xdsresource.Localities := [] |},
               Some (Errorf priority_missing
                       [of_int (Z.of_nat k); of_priorities P]))) ∧
  (Forall has_ID (xdspb.Endpoints m) -> contiguous P ->
     ∃ u, parseEDSRespProto (Some m) = Some (u, None)).
Proof.
  intros Hm P. pose proof (parseEDSRespProto_ok_iff m Hm) as Hiff.
  split; [|split; [|split]].
  - intros u Hu. apply Hiff. by exists u.
  - intros Hgap.
    destruct (parseEDSRespProto_result m) as [Hok|Herr]; [|done].
    by apply Hiff in Hok as [_ Hc].
  - intros Hall Hgap.
    pose proof (declared_below m Hm) as Hbound.
    pose proof (size_uint32 _ Hbound) as Hsize. fold P in Hsize.
    rewrite parseEDSRespProto_unfold.
    destruct (localities_loop_total _
                (drops_loop (xdspb.GetDropOverloads (xdspb.Policy m)) zero_value)
                ∅ Hall) as [ret ->].
    rewrite (right_id_L ∅ (∪)). fold (declared_priorities m). fold P.
    destruct (priorities_loop P (size P) 0) as [err|] eqn:E.
    + apply priorities_loop_Some in E as (k & Hk & Hmiss & Hbelow & ->).
      rewrite Z.add_0_l in *. rewrite uint32_small in Hmiss by lia.
      exists k. repeat split; try done.
      intros j Hj. specialize (Hbelow j Hj).
      by rewrite Z.add_0_l, uint32_small in Hbelow by lia.
    + by apply priorities_loop_contiguous in E.
  - intros Hall Hc. by apply Hiff.
Qed.

Lemma uint32_priorities_gap_at_1 : uint32_priorities gap_at_1.
Proof. repeat constructor. Qed.

Lemma gap_at_1_not_contiguous : ¬ contiguous (declared_priorities gap_at_1).
Proof.
  apply (not_contiguous_gap _ 1).
  - vm_compute. lia.
  - apply (bool_decide_unpack _). by vm_compute.
Qed.

Lemma parseEDSRespProto_priorities_witness :
  contiguous (declared_priorities shared_priority) ∧
  ∃ k : nat,
    (k < size (declared_priorities gap_at_1))%nat ∧
    (N.of_nat k ∉ declared_priorities gap_at_1) ∧
    (∀ j : nat, (j < k)%nat -> N.of_nat j ∈ declared_priorities gap_at_1) ∧
    parseEDSRespProto (Some gap_at_1) =
      Some ({| xdsresource.Drops := []; xdsresource.Localities := [] |},
            Some (Errorf priority_missing
                    [of_int (Z.of_nat k);
                     of_priorities (declared_priorities gap_at_1)])).
Proof.
  split.
  - eapply (parseEDSRespProto_priorities shared_priority).
    + repeat constructor.
    + reflexivity.
  - apply (parseEDSRespProto_priorities gap_at_1).
    + apply uint32_priorities_gap_at_1.
    + repeat constructor; by eexists.
    + apply gap_at_1_not_contiguous.
Defined.

(** Localities at priorities 0 and 2: priority 1 is reported missing, with
    the set {0, 2}. *)
Example parseEDSRespProto_gap_at_1 :
  parseEDSRespProto (Some gap_at_1) =
    Some ({| xdsresource.Drops := []; xdsresource.Localities := [] |},
          Some (Errorf priority_missing [of_int 1; of_priorities {[ 0%N; 2%N ]}])).
Proof. vm_compute. reflexivity. Qed.

(** C2, as stated, fails on [gap_without_ID]: priority 1 is missing from
    the declared priorities {0, 2, 5}, and the error returned is the one of
    the locality without identifier, which names no priority. *)
Lemma parseEDSRespProto_gap_without_ID :
  uint32_priorities gap_without_ID ∧
  declared_priorities gap_without_ID = {[ 0%N; 2%N; 5%N ]} ∧
  (1%N ∉ declared_priorities gap_without_ID) ∧
  ¬ contiguous (declared_priorities gap_without_ID) ∧
  parseEDSRespProto (Some gap_without_ID) =
    Some ({| xdsresource.Drops := []; xdsresource.Localities := [] |},
          Some (Errorf locality_without_ID [of_locality (entry None 5)])) ∧
  ∀ (i : Z) (P : gset N),
    parseEDSRespProto (Some gap_without_ID) ≠
      Some ({| xdsresource.Drops := []; xdsresource.Localities := [] |},
            Some (Errorf priority_missing [of_int i; of_priorities P])).
Proof.
  split; [repeat constructor|]. split; [by vm_compute|].
  assert (1%N ∉ declared_priorities gap_without_ID) as Hmiss.
  { apply (bool_decide_unpack _). by vm_compute. }
  split; [done|]. split; [|split].
  - apply (not_contiguous_gap _ 1); [|done]. vm_compute. lia.
  - reflexivity.
  - intros i P. discriminate.
Qed.
End clusterresolver_spec.

(** ** The cluster resource type *)

Module xdsresource_spec.
Import anypb xdsresource samples.

Lemma bytes_equal_eq (x y : list Byte.byte) :
  proto.bytes_equal x y = true ↔ x = y.
Proof.
  revert y. induction x as [|a x IH]; intros [|b y]; simpl; try done.
  rewrite andb_true_iff, IH. split.
  - intros [Hab ->]. by apply Byte.byte_dec_bl in Hab as ->.
  - intros [= -> ->]. split; [by apply Byte.byte_dec_lb | done].
Qed.

(** [proto.Equal] on envelopes is equality of the envelopes. *)
Lemma proto_Equal_eq (x y : option Any) : proto.Equal x y = true ↔ x = y.
Proof.
  destruct x as [[ux vx]|], y as [[uy vy]|]; simpl; try done.
  rewrite andb_true_iff, String.eqb_eq, bytes_equal_eq. split.
  - by intros [-> ->].
  - by intros [= -> ->].
Qed.

Lemma proto_Equal_refl (x : option Any) : proto.Equal x x = true.
Proof. by apply proto_Equal_eq. Qed.

Section Cluster.
Context {SecurityConfig Fields Config error : Type}.
Context `{!ZeroValue SecurityConfig, !ZeroValue Fields}.
Variable unmarshalClusterResource :
  option Any -> string * ClusterUpdate SecurityConfig Fields * option error.
Variable securityConfigValidator : Config -> SecurityConfig -> option error.

Local Abbreviation Decode :=
  (xdsresource.Decode unmarshalClusterResource securityConfigValidator clusterType).
Local Abbreviation CRD := (ClusterResourceData SecurityConfig Fields).
Local Abbreviation RD := (ResourceData SecurityConfig Fields).

(** The result built for the cluster [u] under [name]. *)
Local Abbreviation result name u :=
  {| Name := name;
     Resource := iface_cluster (Some (Build_ClusterResourceData iface_nil u)) |}.

(** [Equal] on two non-nil cluster resources compares the raw envelopes. *)
Lemma Equal_non_nil (c c' : CRD) :
  Equal (Some c) (iface_cluster (Some c')) =
    Some (proto.Equal (Raw (ClusterResourceData_Resource c))
                      (Raw (ClusterResourceData_Resource c'))).
Proof. reflexivity. Qed.

(** A non-nil result of [Decode] holds a non-nil cluster resource; with
    a non-nil error the resource is the zero-value placeholder. *)
Lemma Decode_Some_inv opts resource (res : DecodeResult SecurityConfig Fields) err :
  Decode opts resource = Some (Some res, err) ->
  ∃ u, res = result (Name res) u ∧ Name res ≠ EmptyString ∧
       (is_Some err -> u = zero_value).
Proof.
  unfold xdsresource.Decode.
  destruct (unmarshalClusterResource resource) as [[name cluster] e].
  destruct (String.eqb name EmptyString) eqn:Hname; [done|].
  apply String.eqb_neq in Hname.
  case_bool_decide as He.
  - intros [= <- <-]. by exists zero_value.
  - destruct opts as [o|]; [|done].
    destruct (securityConfigValidator _ _) as [e'|].
    + intros [= <- <-]. by exists zero_value.
    + intros [= <- <-]. exists cluster. repeat split; [done|].
      by intros [? [=]].
Qed.

(** A result with a nil error is the unmarshalled cluster under its
    name. *)
Lemma Decode_ok_inv opts resource (res : DecodeResult SecurityConfig Fields) :
  Decode opts resource = Some (Some res, None) ->
  ∃ name cluster,
    unmarshalClusterResource resource = (name, cluster, None) ∧
    res = result name cluster.
Proof.
  unfold xdsresource.Decode.
  destruct (unmarshalClusterResource resource) as [[name cluster] e].
  destruct (String.eqb name EmptyString); [done|].
  case_bool_decide as He.
  - intros [= <- ->]. by destruct He.
  - destruct e as [e|]; [destruct He; by eexists|].
    destruct opts as [o|]; [|done].
    destruct (securityConfigValidator _ _); [done|].
    intros [= <-]. by exists name, cluster.
Qed.



(** An argument that is non-nil as an interface but holds a nil pointer
    makes [Equal] false on a nil receiver, and makes the call of its
    [Raw] panic on a non-nil one. *)
Remark Equal_typed_nil (c : CRD) :
  Equal (None : option CRD) (iface_cluster None) = Some false ∧
  Equal (Some c) (iface_cluster None) = None.
Proof. done. Qed.

(** C10: two non-nil cluster resources around the zero-value
    [ClusterUpdate] are [Equal]; so are the placeholders of any two
    validation failures of [Decode], whatever the resources and the
    errors; and [Equal] depends on its receiver through the raw envelope
    alone. *)
Theorem Equal_placeholders :
  (∀ c c' : CRD,
     ClusterResourceData_Resource c = zero_value ->
     ClusterResourceData_Resource c' = zero_value ->
     Equal (Some c) (iface_cluster (Some c')) = Some true) ∧
  (∀ opts1 opts2 r1 r2 (d1 d2 : DecodeResult SecurityConfig Fields) (e1 e2 : error),
     Decode opts1 r1 = Some (Some d1, Some e1) ->
     Decode opts2 r2 = Some (Some d2, Some e2) ->
     ∃ c1 : CRD, Resource d1 = iface_cluster (Some c1) ∧
                 Equal (Some c1) (Resource d2) = Some true) ∧
  (∀ (c c' : CRD) (other : RD),
     Raw (ClusterResourceData_Resource c) = Raw (ClusterResourceData_Resource c') ->
     Equal (Some c) other = Equal (Some c') other).
Proof.
  split; [|split].
  - intros c c' Hc Hc'. by rewrite Equal_non_nil, Hc, Hc'.
  - intros opts1 opts2 r1 r2 d1 d2 e1 e2 H1 H2.
    apply Decode_Some_inv in H1 as (u1 & -> & _ & Hz1).
    apply Decode_Some_inv in H2 as (u2 & -> & _ & Hz2).
    rewrite Hz1, Hz2 by by eexists. simpl.
    eexists. split; [reflexivity|]. by rewrite Equal_non_nil.
  - intros c c' other Hraw. unfold Equal. simpl. by rewrite Hraw.
Qed.

Section Delegation.
Context {W : Type} `{!ClusterWatcher SecurityConfig Fields error W}.

(** C7, as amended: [OnUpdate] narrows by a type assertion made at run
    time.  It succeeds, and hands the pointer to the wrapped watcher,
    exactly when the interface value holds a pointer to a
    [ClusterResourceData]; on the nil interface and on a value of
    another resource type it panics.  It succeeds on the resource of
    every result of the cluster type's [Decode]. *)
Theorem OnUpdate_narrowing (d : delegatingClusterWatcher W) :
  (∀ c : option CRD,
     OnUpdate d (iface_cluster c) =
       Some {| watcher := ClusterWatcher_OnUpdate (watcher d) c |}) ∧
  OnUpdate d (iface_nil : RD) = None ∧
  (∀ raw : option (option Any), OnUpdate d (iface_other raw : RD) = None) ∧
  (∀ opts resource (res : DecodeResult SecurityConfig Fields) err,
     Decode opts resource = Some (Some res, err) ->
     ∃ c : CRD,
       Resource res = iface_cluster (Some c) ∧
       OnUpdate d (Resource res) =
         Some {| watcher := ClusterWatcher_OnUpdate (watcher d) (Some c) |}).
Proof.
  split; [done|]. split; [done|]. split; [done|].
  intros opts resource res err (u & -> & _)%Decode_Some_inv.
  eexists. by split.
Qed.
End Delegation.
End Cluster.

Section Twice.
Context {SecurityConfig Fields Config error : Type}.
Context `{!ZeroValue SecurityConfig, !ZeroValue Fields}.

(** The collaborators as the first call and as the second call find them:
    nothing makes them answer the same. *)
Variables unmarshal1 unmarshal2 :
  option Any -> string * ClusterUpdate SecurityConfig Fields * option error.
Variables validator1 validator2 : Config -> SecurityConfig -> option error.

(** Modelled from the spec: a [ClusterUpdate] carries as its raw envelope
    the original serialized bytes; [raw_of r] is the raw envelope kept for
    the envelope [r]. *)
Variable raw_of : option Any -> option Any.
Hypothesis unmarshal1_raw : ∀ r name cluster,
  unmarshal1 r = (name, cluster, None) -> Raw cluster = raw_of r.
Hypothesis unmarshal2_raw : ∀ r name cluster,
  unmarshal2 r = (name, cluster, None) -> Raw cluster = raw_of r.

(** C5: two calls of [Decode] with the same options on byte-identical
    envelopes, both without error, return resources that are [Equal], each
    to the other, whatever else the two unmarshallings and the two security
    checks make of the envelope. *)
Theorem Decode_deterministic opts (r1 r2 : option Any)
    (d1 d2 : DecodeResult SecurityConfig Fields) :
  r1 = r2 ->
  xdsresource.Decode unmarshal1 validator1 clusterType opts r1 = Some (Some d1, None) ->
  xdsresource.Decode unmarshal2 validator2 clusterType opts r2 = Some (Some d2, None) ->
  ∃ c1 c2 : ClusterResourceData SecurityConfig Fields,
    Resource d1 = iface_cluster (Some c1) ∧
    Resource d2 = iface_cluster (Some c2) ∧
    Equal (Some c1) (Resource d2) = Some true ∧
    Equal (Some c2) (Resource d1) = Some true.
Proof.
  intros <- H1 H2.
  apply Decode_ok_inv in H1 as (n1 & u1 & Hu1 & ->).
  apply Decode_ok_inv in H2 as (n2 & u2 & Hu2 & ->).
  apply unmarshal1_raw in Hu1. apply unmarshal2_raw in Hu2.
  do 2 eexists. split; [reflexivity|]. split; [reflexivity|]. simpl.
  rewrite !Equal_non_nil. simpl. rewrite Hu1, Hu2.
  by rewrite proto_Equal_refl.
Qed.
End Twice.

(** *** The toy instance *)



(** Without options the security check cannot be reached. *)
Example Decode_nil_opts :
  toy_Decode None (envelope [Byte.x01]) = None ∧
  toy_Decode None (envelope [Byte.x00]) = toy_Decode toy_opts (envelope [Byte.x00]).
Proof. split; reflexivity. Qed.



Lemma Decode_deterministic_witness :
  ∃ d1 d2 c1 c2,
    toy_Decode toy_opts (envelope [Byte.x01; Byte.x05]) = Some (Some d1, None) ∧
    xdsresource.Decode lax_unmarshal lax_validator clusterType toy_opts
      (envelope [Byte.x01; Byte.x05]) = Some (Some d2, None) ∧
    Resource d1 ≠ Resource d2 ∧
    Resource d1 = iface_cluster (Some c1) ∧
    Resource d2 = iface_cluster (Some c2) ∧
    Equal (Some c1) (Resource d2) = Some true ∧
    Equal (Some c2) (Resource d1) = Some true.
Proof.
  assert (∀ r name cluster,
            toy_unmarshal r = (name, cluster, None) -> Raw cluster = id r) as Htoy.
  { intros [[u v]|] name cluster; simpl; [|done].
    destruct (String.eqb u _); [|done]. destruct v as [|b v]; [done|].
    destruct (Byte.eqb b Byte.x00); [done|]. by intros [= _ <-]. }
  assert (∀ r name cluster,
            lax_unmarshal r = (name, cluster, None) -> Raw cluster = id r) as Hlax.
  { intros [a|] name cluster; simpl; [|done]. by intros [= _ <-]. }
  destruct (Decode_deterministic toy_unmarshal lax_unmarshal toy_validator
              lax_validator id Htoy Hlax toy_opts
              (envelope [Byte.x01; Byte.x05]) (envelope [Byte.x01; Byte.x05])
              _ _ eq_refl eq_refl eq_refl)
    as (c1 & c2 & Hc1 & Hc2 & H12 & H21).
  do 2 eexists. exists c1, c2.
  split; [reflexivity|]. split; [reflexivity|]. split; [discriminate|].
  split; [exact Hc1|]. split; [exact Hc2|]. split; [exact H12 | exact H21].
Defined.

Lemma Equal_placeholders_witness :
  ∃ d1 d2 c1,
    toy_Decode toy_opts (envelope [Byte.x00]) =
      Some (Some d1, Some "invalid cluster"%string) ∧
    toy_Decode toy_opts (envelope [Byte.x02; Byte.x05]) =
      Some (Some d2, Some "security config rejected"%string) ∧
    Name d1 ≠ Name d2 ∧
    Resource d1 = iface_cluster (Some c1) ∧
    Equal (Some c1) (Resource d2) = Some true.
Proof.
  destruct (Equal_placeholders toy_unmarshal toy_validator) as (_ & H & _).
  destruct (H toy_opts toy_opts (envelope [Byte.x00]) (envelope [Byte.x02; Byte.x05])
              _ _ _ _ eq_refl eq_refl)
    as (c1 & Hc1 & HE).
  do 2 eexists. exists c1. split; [reflexivity|]. split; [reflexivity|].
  split; [discriminate|]. split; [exact Hc1 | exact HE].
Defined.

Lemma OnUpdate_narrowing_witness :
  ∃ d c,
    toy_Decode toy_opts (envelope [Byte.x01; Byte.x05]) = Some (Some d, None) ∧
    Resource d = iface_cluster (Some c) ∧
    OnUpdate fresh_delegator (Resource d) = Some {| watcher := [Some c] |}.
Proof.
  destruct (OnUpdate_narrowing toy_unmarshal toy_validator fresh_delegator)
    as (_ & _ & _ & H).
  destruct (H toy_opts (envelope [Byte.x01; Byte.x05]) _ _ eq_refl)
    as (c & Hc & HU).
  eexists. exists c. split; [reflexivity|]. split; [exact Hc | exact HU].
Defined.

(** C7, as stated, fails: the narrowing is a check made at run time, and it
    fails on values of the parameter's type, the nil interface and a
    resource of another type. *)
Lemma OnUpdate_can_panic :
  OnUpdate fresh_delegator (iface_nil : toy_ResourceData) = None ∧
  OnUpdate fresh_delegator (iface_other (Some foreign_envelope) : toy_ResourceData) = None.
Proof. split; reflexivity. Qed.

(** C9: the type URL of the cluster resource type is the constant
    "type.googleapis.com/envoy.config.cluster.v3.Cluster", set once in the
    singleton descriptor, next to the resource type and the flag that all
    resources are required in a state-of-the-world response. *)
Theorem clusterType_TypeURL :
  TypeURL clusterType = "type.googleapis.com/envoy.config.cluster.v3.Cluster"%string ∧
  typeEnum (clusterResourceType_resourceTypeState clusterType) = ClusterResource ∧
  allResourcesRequiredInSotW (clusterResourceType_resourceTypeState clusterType) = true.
Proof. repeat split. Qed.
End xdsresource_spec.

(** ** Interceptor chains *)

Module grpc_spec.
Import grpc chains.

Section Server.
Context {Ctx Req Srv Result : Type}.

Local Abbreviation Interceptor := (UnaryServerInterceptor Ctx Req Srv Result).
Local Abbreviation Handler := (UnaryHandler Ctx Req Result).
Local Abbreviation Info := (option (UnaryServerInfo Srv)).

(** Entered at the end of [pre], with the interceptors of [post] already
    wrapped, the loop wraps those of [pre]; the first interceptor is left
    out. *)
Lemma ChainUnaryServer_loop_wrap (first : Interceptor) (info : Info) (h : Handler)
    (pre post : list Interceptor) :
  ChainUnaryServer_loop (first :: pre ++ post) info (length pre) (wrap post info h) =
    wrap (pre ++ post) info h.
Proof.
  revert post. induction pre as [|x pre IH] using rev_ind; intros post.
  - reflexivity.
  - rewrite length_app, Nat.add_1_r. simpl.
    rewrite <- app_assoc. simpl. rewrite nth_middle.
    apply (IH (x :: post)).
Qed.

Lemma ChainUnaryServer_loop_all (first : Interceptor) (info : Info) (h : Handler)
    (rest : list Interceptor) :
  ChainUnaryServer_loop (first :: rest) info (length rest) h = wrap rest info h.
Proof.
  pose proof (ChainUnaryServer_loop_wrap first info h rest []) as H.
  by rewrite app_nil_r in H.
Qed.

(** The chain is the handler that runs its interceptors in order. *)
Lemma ChainUnaryServer_wrap (interceptors : list Interceptor) ctx req info (h : Handler) :
  ChainUnaryServer interceptors ctx req info h = wrap interceptors info h ctx req.
Proof.
  destruct interceptors as [|i [|j rest]]; try reflexivity.
  unfold ChainUnaryServer. cbn [length Nat.eqb Nat.sub nth].
  change (S (length rest)) with (length (j :: rest)).
  by rewrite (ChainUnaryServer_loop_all i info h (j :: rest)).
Qed.

Lemma wrap_ChainUnaryServer (interceptors : list Interceptor) info (h : Handler) :
  wrap interceptors info h =
    fun ctx req => ChainUnaryServer interceptors ctx req info h.
Proof.
  destruct interceptors as [|i [|j rest]]; try reflexivity.
  unfold ChainUnaryServer. cbn [length Nat.eqb Nat.sub nth].
  change (S (length rest)) with (length (j :: rest)).
  by rewrite (ChainUnaryServer_loop_all i info h (j :: rest)).
Qed.

Lemma wrap_app (l1 l2 : list Interceptor) info (h : Handler) :
  wrap (l1 ++ l2) info h = wrap l1 info (wrap l2 info h).
Proof. unfold wrap. by rewrite foldr_app. Qed.

(** X1: an empty chain calls the handler; a chain calls its first
    interceptor, with the chain of the others as the handler. *)
Theorem ChainUnaryServer_cons :
  (∀ ctx req (info : Info) (h : Handler),
     ChainUnaryServer [] ctx req info h = h ctx req) ∧
  (∀ (i : Interceptor) rest ctx req (info : Info) (h : Handler),
     ChainUnaryServer (i :: rest) ctx req info h =
       i ctx req info (fun ctx' req' => ChainUnaryServer rest ctx' req' info h)).
Proof.
  split; [reflexivity|].
  intros i rest ctx req info h.
  rewrite ChainUnaryServer_wrap. simpl. by rewrite wrap_ChainUnaryServer.
Qed.

(** X2: a chain of two chains is the chain of the two lists put together. *)
Theorem ChainUnaryServer_nested (l1 l2 : list Interceptor) ctx req info (h : Handler) :
  ChainUnaryServer [ChainUnaryServer l1; ChainUnaryServer l2] ctx req info h =
    ChainUnaryServer (l1 ++ l2) ctx req info h.
Proof.
  rewrite (ChainUnaryServer_wrap (l1 ++ l2)), wrap_app.
  rewrite (wrap_ChainUnaryServer l2), <- ChainUnaryServer_wrap.
  reflexivity.
Qed.

(** X3: interceptors that change the context hand it on from left to
    right: the handler sees the changes of all, the first applied first. *)
Theorem ChainUnaryServer_context (fs : list (Ctx -> Ctx)) ctx req info (h : Handler) :
  ChainUnaryServer (with_context (Srv:=Srv) <$> fs) ctx req info h =
    h (fold_left (fun c f => f c) fs ctx) req.
Proof.
  rewrite ChainUnaryServer_wrap. revert ctx.
  induction fs as [|f fs IH]; intros ctx; [reflexivity|].
  simpl. unfold with_context at 1. apply IH.
Qed.

(** X4: when an interceptor answers without calling its handler, neither
    the interceptors after it nor the handler of the call matter. *)
Theorem ChainUnaryServer_respond (pre post post' : list Interceptor)
    (answer : Ctx -> Req -> Info -> Result) ctx req info (h h' : Handler) :
  ChainUnaryServer (pre ++ respond answer :: post) ctx req info h =
    ChainUnaryServer (pre ++ respond answer :: post') ctx req info h'.
Proof.
  rewrite !ChainUnaryServer_wrap, !wrap_app. reflexivity.
Qed.
End Server.

Section ADNServer.
Context {Ctx Req Srv Result : Type}.

Local Abbreviation Processor := (ADNServerProcessor Ctx Req Srv Result).
Local Abbreviation Handler := (ADNHandler Ctx Req Result).
Local Abbreviation Info := (option (ADNServerInfo Srv)).

Lemma ChainADNServerProcessor_loop_wrap (first : Processor) (info : Info) (h : Handler)
    (pre post : list Processor) :
  ChainADNServerProcessor_loop (first :: pre ++ post) info (length pre)
      (wrap_ADN post info h) =
    wrap_ADN (pre ++ post) info h.
Proof.
  revert post. induction pre as [|x pre IH] using rev_ind; intros post.
  - reflexivity.
  - rewrite length_app, Nat.add_1_r. simpl.
    rewrite <- app_assoc. simpl. rewrite nth_middle.
    apply (IH (x :: post)).
Qed.

Lemma ChainADNServerProcessor_loop_all (first : Processor) (info : Info) (h : Handler)
    (rest : list Processor) :
  ChainADNServerProcessor_loop (first :: rest) info (length rest) h =
    wrap_ADN rest info h.
Proof.
  pose proof (ChainADNServerProcessor_loop_wrap first info h rest []) as H.
  by rewrite app_nil_r in H.
Qed.

Lemma ChainADNServerProcessor_wrap (processors : list Processor) ctx req info (h : Handler) :
  snd (ChainADNServerProcessor processors) ctx req info h =
    wrap_ADN processors info h ctx req.
Proof.
  destruct processors as [|p [|q rest]]; try reflexivity.
  unfold ChainADNServerProcessor. cbn [length Nat.eqb Nat.sub nth snd].
  change (S (length rest)) with (length (q :: rest)).
  by rewrite (ChainADNServerProcessor_loop_all p info h (q :: rest)).
Qed.

Lemma wrap_ChainADNServerProcessor (processors : list Processor) info (h : Handler) :
  wrap_ADN processors info h =
    fun ctx req => snd (ChainADNServerProcessor processors) ctx req info h.
Proof.
  destruct processors as [|p [|q rest]]; try reflexivity.
  unfold ChainADNServerProcessor. cbn [length Nat.eqb Nat.sub nth snd].
  change (S (length rest)) with (length (q :: rest)).
  by rewrite (ChainADNServerProcessor_loop_all p info h (q :: rest)).
Qed.

(** X5: building a chain of server processors logs one line, whatever the
    processors; the processor built calls the handler when the chain is
    empty, and otherwise calls the first processor with the chain of the
    others as the handler. *)
Theorem ChainADNServerProcessor_cons :
  (∀ processors : list Processor,
     fst (ChainADNServerProcessor processors) =
       ["Hello from UnaryServerInterceptor2"%string]) ∧
  (∀ ctx req (info : Info) (h : Handler),
     snd (ChainADNServerProcessor []) ctx req info h = h ctx req) ∧
  (∀ (p : Processor) rest ctx req (info : Info) (h : Handler),
     snd (ChainADNServerProcessor (p :: rest)) ctx req info h =
       p ctx req info
         (fun ctx' req' => snd (ChainADNServerProcessor rest) ctx' req' info h)).
Proof.
  split; [|split; [reflexivity|]].
  - intros [|p [|q rest]]; reflexivity.
  - intros p rest ctx req info h.
    rewrite ChainADNServerProcessor_wrap. simpl.
    by rewrite wrap_ChainADNServerProcessor.
Qed.
End ADNServer.

Section Client.
Context {Ctx Req Reply ClientConn CallOption Result : Type}.

Local Abbreviation Processor :=
  (ADNClientProcessor Ctx Req Reply ClientConn CallOption Result).
Local Abbreviation Invoker :=
  (ADNInvoker Ctx Req Reply ClientConn CallOption Result).

Lemma ChainADNClientProcessors_loop_wrap (first : Processor) (inv : Invoker)
    (pre post : list Processor) :
  ChainADNClientProcessors_loop (first :: pre ++ post) (length pre)
      (wrap_client post inv) =
    wrap_client (pre ++ post) inv.
Proof.
  revert post. induction pre as [|x pre IH] using rev_ind; intros post.
  - reflexivity.
  - rewrite length_app, Nat.add_1_r. simpl.
    rewrite <- app_assoc. simpl. rewrite nth_middle.
    apply (IH (x :: post)).
Qed.

Lemma ChainADNClientProcessors_loop_all (first : Processor) (inv : Invoker)
    (rest : list Processor) :
  ChainADNClientProcessors_loop (first :: rest) (length rest) inv =
    wrap_client rest inv.
Proof.
  pose proof (ChainADNClientProcessors_loop_wrap first inv rest []) as H.
  by rewrite app_nil_r in H.
Qed.

Lemma ChainADNClientProcessors_wrap (processors : list Processor)
    ctx method req reply cc (inv : Invoker) opts :
  ChainADNClientProcessors processors ctx method req reply cc inv opts =
    wrap_client processors inv ctx method req reply cc opts.
Proof.
  destruct processors as [|p [|q rest]]; try reflexivity.
  unfold ChainADNClientProcessors. cbn [length Nat.eqb Nat.sub nth].
  change (S (length rest)) with (length (q :: rest)).
  by rewrite (ChainADNClientProcessors_loop_all p inv (q :: rest)).
Qed.

Lemma wrap_ChainADNClientProcessors (processors : list Processor) (inv : Invoker) :
  wrap_client processors inv =
    fun ctx method req reply cc opts =>
      ChainADNClientProcessors processors ctx method req reply cc inv opts.
Proof.
  destruct processors as [|p [|q rest]]; try reflexivity.
  unfold ChainADNClientProcessors. cbn [length Nat.eqb Nat.sub nth].
  change (S (length rest)) with (length (q :: rest)).
  by rewrite (ChainADNClientProcessors_loop_all p inv (q :: rest)).
Qed.

Lemma wrap_client_app (l1 l2 : list Processor) (inv : Invoker) :
  wrap_client (l1 ++ l2) inv = wrap_client l1 (wrap_client l2 inv).
Proof. unfold wrap_client. by rewrite foldr_app. Qed.

(** X6: an empty chain of client processors calls the invoker with the
    arguments of the call; a chain calls its first processor, with the chain
    of the others as the invoker. *)
Theorem ChainADNClientProcessors_cons :
  (∀ ctx method req reply cc (inv : Invoker) opts,
     ChainADNClientProcessors [] ctx method req reply cc inv opts =
       inv ctx method req reply cc opts) ∧
  (∀ (p : Processor) rest ctx method req reply cc (inv : Invoker) opts,
     ChainADNClientProcessors (p :: rest) ctx method req reply cc inv opts =
       p ctx method req reply cc
         (fun ctx' method' req' reply' cc' opts' =>
            ChainADNClientProcessors rest ctx' method' req' reply' cc' inv opts')
         opts).
Proof.
  split; [reflexivity|].
  intros p rest ctx method req reply cc inv opts.
  rewrite ChainADNClientProcessors_wrap. simpl.
  by rewrite wrap_ChainADNClientProcessors.
Qed.

(** X7: a chain of two chains of client processors is the chain of the two
    lists put together. *)
Theorem ChainADNClientProcessors_nested (l1 l2 : list Processor)
    ctx method req reply cc (inv : Invoker) opts :
  ChainADNClientProcessors [ChainADNClientProcessors l1; ChainADNClientProcessors l2]
      ctx method req reply cc inv opts =
    ChainADNClientProcessors (l1 ++ l2) ctx method req reply cc inv opts.
Proof.
  rewrite (ChainADNClientProcessors_wrap (l1 ++ l2)), wrap_client_app.
  rewrite (wrap_ChainADNClientProcessors l2), <- ChainADNClientProcessors_wrap.
  reflexivity.
Qed.
End Client.
End grpc_spec.

(** ** The listener of the graceful-stop test *)

Module test_spec.
Import test dialing.

Section Dials.
Context {Listener Chan Ctx Conn : Type}.
Variable Addr_String : Listener -> string.

Local Abbreviation Dials := (dialing.Dials (Conn:=Conn) Addr_String).

Lemma Dial_dialed (d : delayListener Listener Chan) (ctx : Ctx) :
  dialed (fst (Dial (Conn:=Conn) Addr_String d ctx)) = true.
Proof. unfold Dial. by destruct (dialed d) eqn:E. Qed.

Lemma Dials_dialed (d : delayListener Listener Chan) (ctxs : list Ctx) :
  dialed d = true ->
  Dials d ctxs = (d, replicate (length ctxs) no_more_conns).
Proof.
  intros Hd. induction ctxs as [|ctx rest IH]; [reflexivity|].
  simpl. unfold Dial. rewrite Hd, IH. reflexivity.
Qed.

(** X8: in a run of calls of [Dial], only the first can reach the dialer,
    and does so exactly when the listener has not dialed before; every
    later call returns the error "no more conns", and the listener has
    dialed from then on. *)
Theorem Dial_once (d : delayListener Listener Chan) (ctx : Ctx) (rest : list Ctx) :
  snd (Dials d (ctx :: rest)) =
    (if dialed d then no_more_conns
     else Dial_DialContext ctx "tcp" (Addr_String (delayListener_Listener d)))
    :: replicate (length rest) no_more_conns ∧
  dialed (fst (Dials d (ctx :: rest))) = true.
Proof.
  simpl. destruct (Dial Addr_String d ctx) as [d' r] eqn:E.
  assert (dialed d' = true) as Hd'.
  { pose proof (Dial_dialed d ctx) as H. by rewrite E in H. }
  rewrite (Dials_dialed d' rest Hd'). simpl. split; [|done].
  f_equal. unfold Dial in E. destruct (dialed d); by injection E as <- <-.
Qed.
End Dials.
End test_spec.

(** ** More on the cluster resource type *)

Module xdsresource_more.
Import anypb xdsresource samples watch.
Import xdsresource_spec.

Section Cluster.
Context {SecurityConfig Fields Config error : Type}.
Context `{!ZeroValue SecurityConfig, !ZeroValue Fields}.
Variable unmarshalClusterResource :
  option Any -> string * ClusterUpdate SecurityConfig Fields * option error.

Local Abbreviation CRD := (ClusterResourceData SecurityConfig Fields).
Local Abbreviation RD := (ResourceData SecurityConfig Fields).
Local Abbreviation Validator := (Config -> SecurityConfig -> option error).

(** X9: [Equal] with a non-nil receiver is true exactly when the call of
    the argument's [Raw] returns the raw envelope of the receiver, whatever
    the type of the argument; it panics exactly when the argument is not the
    nil interface and the call of its [Raw] panics, as it does on a nil
    pointer, of a cluster resource or of another resource type. *)
Theorem Equal_Raw (c : CRD) (other : RD) :
  (Equal (Some c) other = Some true ↔
   ResourceData_Raw other = ClusterResourceData_Raw (Some c)) ∧
  (Equal (Some c) other = None ↔
   other ≠ iface_nil ∧ ResourceData_Raw other = None).
Proof.
  assert (∀ raw : option Any,
            Some (proto.Equal (Raw (ClusterResourceData_Resource c)) raw) = Some true ↔
            Some raw = Some (Raw (ClusterResourceData_Resource c))) as Hraw.
  { intros raw. split.
    - intros [= H]. apply proto_Equal_eq in H. by rewrite H.
    - intros [= H]. f_equal. apply proto_Equal_eq. by rewrite H. }
  destruct other as [|[c'|]|[raw|]]; unfold Equal; simpl.
  - split; [done|]. split; [done | by intros [? _]].
  - split; [apply Hraw|]. split; [done | by intros [_ ?]].
  - split; [done|]. split; [done|]. done.
  - split; [apply Hraw|]. split; [done | by intros [_ ?]].
  - split; [done|]. split; [done|]. done.
Qed.

(** X10: on non-nil cluster resources [Equal] is reflexive, symmetric and
    transitive. *)
Theorem Equal_equivalence :
  (∀ c : CRD, Equal (Some c) (iface_cluster (Some c)) = Some true) ∧
  (∀ c c' : CRD,
     Equal (Some c) (iface_cluster (Some c')) =
     Equal (Some c') (iface_cluster (Some c))) ∧
  (∀ c1 c2 c3 : CRD,
     Equal (Some c1) (iface_cluster (Some c2)) = Some true ->
     Equal (Some c2) (iface_cluster (Some c3)) = Some true ->
     Equal (Some c1) (iface_cluster (Some c3)) = Some true).
Proof.
  split; [|split].
  - intros c. by rewrite Equal_non_nil, proto_Equal_refl.
  - intros c c'. rewrite !Equal_non_nil. f_equal.
    destruct (proto.Equal (Raw (ClusterResourceData_Resource c))
                (Raw (ClusterResourceData_Resource c'))) eqn:E.
    + apply proto_Equal_eq in E. symmetry. apply proto_Equal_eq. by rewrite E.
    + destruct (proto.Equal (Raw (ClusterResourceData_Resource c'))
                  (Raw (ClusterResourceData_Resource c))) eqn:E'; [|done].
      apply proto_Equal_eq in E'. rewrite E', proto_Equal_refl in E. done.
  - intros c1 c2 c3. rewrite !Equal_non_nil.
    intros [= H12%proto_Equal_eq] [= H23%proto_Equal_eq].
    f_equal. apply proto_Equal_eq. by rewrite H12.
Qed.

(** X11: [Decode] consults neither the options nor the security validator
    when unmarshalling gave an empty name or an error; with nil options it
    panics exactly when unmarshalling gave a name and no error. *)
Theorem Decode_validator_reached (v v' : Validator) t opts opts' resource
    name cluster err :
  unmarshalClusterResource resource = (name, cluster, err) ->
  (name = EmptyString ∨ is_Some err ->
     Decode unmarshalClusterResource v t opts resource =
     Decode unmarshalClusterResource v' t opts' resource) ∧
  (Decode unmarshalClusterResource v t None resource = None ↔
     name ≠ EmptyString ∧ err = None).
Proof.
  intros Hu. unfold Decode. rewrite Hu.
  destruct (String.eqb name EmptyString) eqn:Hname.
  - apply String.eqb_eq in Hname. split; [done|]. split; [done|]. by intros [? _].
  - apply String.eqb_neq in Hname. case_bool_decide as He.
    + split; [done|]. split; [done|]. intros [_ ->]. by destruct He.
    + split.
      * intros [?|?]; done.
      * split; [|done]. intros _. split; [done|].
        destruct err; [|done]. destruct He. by eexists.
Qed.

(** X12: the resource of a result of [Decode] returns as its [Raw] the raw
    envelope of the unmarshalled cluster when the error is nil, and nil
    otherwise; so the resources of two successful results are [Equal]
    exactly when the two unmarshalled clusters have the same raw envelope. *)
Theorem Decode_Raw (v : Validator) t :
  (∀ opts resource (d : DecodeResult SecurityConfig Fields) err name cluster e,
     unmarshalClusterResource resource = (name, cluster, e) ->
     Decode unmarshalClusterResource v t opts resource = Some (Some d, err) ->
     Name d = name ∧
     ResourceData_Raw (Resource d) =
       Some (match err with None => Raw cluster | Some _ => None end)) ∧
  (∀ opts1 opts2 r1 r2 (d1 d2 : DecodeResult SecurityConfig Fields)
     n1 n2 c1 c2 e1 e2,
     unmarshalClusterResource r1 = (n1, c1, e1) ->
     unmarshalClusterResource r2 = (n2, c2, e2) ->
     Decode unmarshalClusterResource v t opts1 r1 = Some (Some d1, None) ->
     Decode unmarshalClusterResource v t opts2 r2 = Some (Some d2, None) ->
     ∃ p1 : CRD, Resource d1 = iface_cluster (Some p1) ∧
       (Equal (Some p1) (Resource d2) = Some true ↔ Raw c1 = Raw c2)).
Proof.
  assert (∀ opts resource (d : DecodeResult SecurityConfig Fields) err name cluster e,
     unmarshalClusterResource resource = (name, cluster, e) ->
     Decode unmarshalClusterResource v t opts resource = Some (Some d, err) ->
     ∃ u, d = {| Name := name;
                 Resource := iface_cluster (Some (Build_ClusterResourceData iface_nil u)) |} ∧
          Raw u = match err with None => Raw cluster | Some _ => None end) as Hinv.
  { intros opts resource d err name cluster e Hu. unfold Decode. rewrite Hu.
    destruct (String.eqb name EmptyString); [done|].
    case_bool_decide as He.
    - intros [= <- <-]. exists zero_value. split; [done|]. by destruct He as [? ->].
    - destruct opts as [o|]; [|done]. destruct (v _ _).
      + intros [= <- <-]. by exists zero_value.
      + intros [= <- <-]. by exists cluster. }
  split.
  - intros opts resource d err name cluster e Hu Hd.
    destruct (Hinv _ _ _ _ _ _ _ Hu Hd) as (u & -> & Hraw). simpl. by rewrite Hraw.
  - intros opts1 opts2 r1 r2 d1 d2 n1 n2 c1 c2 e1 e2 Hu1 Hu2 Hd1 Hd2.
    destruct (Hinv _ _ _ _ _ _ _ Hu1 Hd1) as (u1 & -> & Hraw1).
    destruct (Hinv _ _ _ _ _ _ _ Hu2 Hd2) as (u2 & -> & Hraw2).
    eexists. split; [reflexivity|]. simpl.
    rewrite Equal_non_nil. simpl. rewrite Hraw1, Hraw2. split.
    + intros [= H]. by apply proto_Equal_eq.
    + intros H. f_equal. by apply proto_Equal_eq.
Qed.

Section Delegation.
Context {W : Type} `{!ClusterWatcher SecurityConfig Fields error W}.

Local Abbreviation ev := (event SecurityConfig Fields error).

(** X13: a run of events gets through the delegating watcher exactly when
    each update in it holds a pointer to a cluster resource, and then the
    wrapped watcher has been told each event, in order; at the first update
    of another kind the run panics. *)
Theorem deliver_all_typed (d : delegatingClusterWatcher W) (evs : list ev) :
  deliver_all d evs = Build_delegatingClusterWatcher W <$> typed_all (watcher d) evs ∧
  (is_Some (deliver_all d evs) ↔ Forall is_cluster_update evs).
Proof.
  revert d. induction evs as [|e evs IH]; intros d.
  - split; [by destruct d|]. split; [constructor | by eexists].
  - destruct e as [[|c|raw]|err|]; simpl.
    + split; [done|]. split; [by intros [? [=]] | by inversion 1].
    + destruct (IH {| watcher := ClusterWatcher_OnUpdate (watcher d) c |}) as [-> Hiff].
      split; [done|]. rewrite Hiff. split; [by constructor | by inversion 1].
    + split; [done|]. split; [by intros [? [=]] | by inversion 1].
    + destruct (IH (OnError d err)) as [-> Hiff].
      split; [done|]. rewrite Hiff. split; [by constructor | by inversion 1].
    + destruct (IH (OnResourceDoesNotExist d)) as [-> Hiff].
      split; [done|]. rewrite Hiff. split; [by constructor | by inversion 1].
Qed.
End Delegation.
End Cluster.

Lemma Equal_equivalence_witness :
  Equal (Some (resource_of (envelope [Byte.x01]) [Byte.x05]))
        (iface_cluster (Some (resource_of (envelope [Byte.x01]) []))) = Some true.
Proof.
  destruct (@Equal_equivalence bool (list Byte.byte)) as (_ & _ & Htrans).
  apply (Htrans _ (resource_of (envelope [Byte.x01]) [Byte.x07])); reflexivity.
Defined.

Lemma Decode_validator_reached_witness :
  toy_Decode None (envelope [Byte.x00]) = toy_Decode toy_opts (envelope [Byte.x00]) ∧
  toy_Decode None (envelope [Byte.x01]) = None.
Proof.
  split.
  - destruct (Decode_validator_reached toy_unmarshal toy_validator toy_validator
                clusterType None toy_opts (envelope [Byte.x00]) _ _ _ eq_refl)
      as [H _].
    apply H. right. by eexists.
  - destruct (Decode_validator_reached toy_unmarshal toy_validator toy_validator
                clusterType None None (envelope [Byte.x01]) _ _ _ eq_refl)
      as [_ H].
    apply H. split; [discriminate | reflexivity].
Defined.

Lemma Decode_Raw_witness :
  ∃ d1 d2 p1,
    toy_Decode toy_opts (envelope [Byte.x01; Byte.x05]) = Some (Some d1, None) ∧
    toy_Decode toy_opts (envelope [Byte.x01; Byte.x07]) = Some (Some d2, None) ∧
    Resource d1 = iface_cluster (Some p1) ∧
    Equal (Some p1) (Resource d2) ≠ Some true.
Proof.
  destruct (Decode_Raw toy_unmarshal toy_validator clusterType) as [_ H].
  destruct (H toy_opts toy_opts (envelope [Byte.x01; Byte.x05])
              (envelope [Byte.x01; Byte.x07]) _ _ _ _ _ _ _ _
              eq_refl eq_refl eq_refl eq_refl)
    as (p1 & Hp1 & Hiff).
  do 2 eexists. exists p1. split; [reflexivity|]. split; [reflexivity|].
  split; [exact Hp1|]. intros HE. apply Hiff in HE. discriminate HE.
Defined.
End xdsresource_more.

(** ** More on the EDS parser *)

Module clusterresolver_more.
Import fmt clusterresolver eds samples.
Import clusterresolver_spec.

(** The accumulated update has no say in how the locality loop ends: from
    two updates it returns the same error, or the same priorities and the
    same localities appended. *)
Lemma localities_loop_ret localities ret1 ret2 priorities :
  match localities_loop localities ret1 priorities,
        localities_loop localities ret2 priorities with
  | inl err1, inl err2 => err1 = err2
  | inr (r1, P1), inr (r2, P2) =>
      P1 = P2 ∧
      ∃ new, xdsresource.Localities r1 = xdsresource.Localities ret1 ++ new ∧
             xdsresource.Localities r2 = xdsresource.Localities ret2 ++ new
  | _, _ => False
  end.
Proof.
  revert ret1 ret2 priorities.
  induction localities as [|x ls IH]; intros ret1 ret2 priorities; simpl.
  - split; [done|]. exists []. by rewrite !app_nil_r.
  - destruct (endpointpb.GetLocality x) as [l|]; [|done].
    match goal with
    | |- context [localities_loop ls (append_Localities ret1 ?loc) ?P] =>
        specialize (IH (append_Localities ret1 loc) (append_Localities ret2 loc) P);
        destruct (localities_loop ls (append_Localities ret1 loc) P) as [e1|[r1 P1]];
        destruct (localities_loop ls (append_Localities ret2 loc) P) as [e2|[r2 P2]];
        try done;
        destruct IH as (-> & new & H1 & H2);
        split; [done|]; exists (loc :: new);
        simpl in H1, H2; rewrite H1, H2, <- !app_assoc; done
    end.
Qed.

(** X14: when the parse fails, the update returned is the zero value, and
    the error is either the one of a locality entry of the input that has no
    identifier, or, all entries having one, the one of a priority missing
    below the number of declared priorities, with the declared set. *)
Theorem parseEDSRespProto_error (m : xdspb.ClusterLoadAssignment)
    (u : xdsresource.EndpointsUpdate) (err : error) :
  parseEDSRespProto (Some m) = Some (u, Some err) ->
  u = {| xdsresource.Drops := []; xdsresource.Localities := [] |} ∧
  ((∃ locality, locality ∈ xdspb.Endpoints m ∧
                endpointpb.GetLocality locality = None ∧
                err = Errorf locality_without_ID [of_locality locality]) ∨
   (Forall has_ID (xdspb.Endpoints m) ∧
    ∃ i : nat, (i < size (declared_priorities m))%nat ∧
               err = Errorf priority_missing
                       [of_int (Z.of_nat i); of_priorities (declared_priorities m)])).
Proof.
  rewrite parseEDSRespProto_unfold.
  destruct (localities_loop _ _ _) as [e|[ret P]] eqn:E.
  - intros [= <- <-]. split; [done|]. left.
    apply localities_loop_inl in E as (pre & loc & post & Hm & _ & Hloc & ->).
    exists loc. split; [|done]. rewrite Hm. apply elem_of_app. right. left.
  - apply localities_loop_inr in E as (Hall & _ & _ & ->).
    rewrite (right_id_L ∅ (∪)). fold (declared_priorities m).
    destruct (priorities_loop _ _ _) as [e|] eqn:Ep; [|done].
    intros [= <- <-]. split; [done|]. right. split; [done|].
    apply priorities_loop_Some in Ep as (k & Hk & _ & _ & ->).
    exists k. by rewrite Z.add_0_l.
Qed.

(** X15: the drop policies have no part in whether or how the parse fails,
    nor in the localities of the update: two inputs with the same locality
    entries give the same error and the same localities. *)
Theorem parseEDSRespProto_policy localities policy policy' :
  let r := parseEDSRespProto
             (Some {| xdspb.Endpoints := localities; xdspb.Policy := policy |}) in
  let r' := parseEDSRespProto
              (Some {| xdspb.Endpoints := localities; xdspb.Policy := policy' |}) in
  snd <$> r = snd <$> r' ∧
  (xdsresource.Localities ∘ fst) <$> r = (xdsresource.Localities ∘ fst) <$> r'.
Proof.
  intros r r'. subst r r'. rewrite !parseEDSRespProto_unfold. simpl.
  pose proof (localities_loop_ret localities
                (drops_loop (xdspb.GetDropOverloads policy) zero_value)
                (drops_loop (xdspb.GetDropOverloads policy') zero_value) ∅) as H.
  destruct (localities_loop localities (drops_loop (xdspb.GetDropOverloads policy) _) ∅)
    as [e1|[r1 P1]];
  destruct (localities_loop localities (drops_loop (xdspb.GetDropOverloads policy') _) ∅)
    as [e2|[r2 P2]]; try done.
  - by subst.
  - destruct H as (-> & new & H1 & H2).
    destruct (priorities_loop P2 (size P2) 0); simpl; [done|].
    rewrite drops_loop_Localities in H1, H2. by rewrite H1, H2.
Qed.

Lemma uint32_priorities_Permutation m m' :
  xdspb.Endpoints m ≡ₚ xdspb.Endpoints m' ->
  uint32_priorities m -> uint32_priorities m'.
Proof. unfold uint32_priorities. by intros ->. Qed.

Lemma declared_priorities_Permutation m m' :
  xdspb.Endpoints m ≡ₚ xdspb.Endpoints m' ->
  declared_priorities m = declared_priorities m'.
Proof. unfold declared_priorities. by intros ->. Qed.

(** X16: whether the parse succeeds does not depend on the order of the
    locality entries, nor on the drop policies. *)
Theorem parseEDSRespProto_Permutation (m m' : xdspb.ClusterLoadAssignment) :
  uint32_priorities m ->
  xdspb.Endpoints m ≡ₚ xdspb.Endpoints m' ->
  (∃ u, parseEDSRespProto (Some m) = Some (u, None)) ↔
  (∃ u', parseEDSRespProto (Some m') = Some (u', None)).
Proof.
  intros Hm Hperm.
  rewrite (parseEDSRespProto_ok_iff m Hm).
  rewrite (parseEDSRespProto_ok_iff m' (uint32_priorities_Permutation m m' Hperm Hm)).
  rewrite (declared_priorities_Permutation m m' Hperm).
  by rewrite Hperm.
Qed.

Lemma size_list_to_set_le (l : list N) :
  (size (list_to_set l : gset N) <= length l)%nat.
Proof.
  induction l as [|x l IH]; [by vm_compute|].
  rewrite list_to_set_cons, size_union_alt, size_singleton. simpl.
  pose proof (subseteq_size (list_to_set l ∖ {[x]}) (list_to_set l : gset N)) as H.
  assert (size (list_to_set l ∖ {[x]} : gset N) <= size (list_to_set l : gset N))%nat.
  { apply H. intros y Hy. by apply elem_of_difference in Hy as [? _]. }
  lia.
Qed.

Lemma Localities_Priority localities new :
  Forall2 locality_from localities new ->
  xdsresource.Priority <$> new = endpointpb.GetPriority <$> localities.
Proof.
  induction 1 as [|src dst ls new (_ & _ & Hp & _) _ IH]; [done|].
  rewrite !fmap_cons. by f_equal.
Qed.

(** The localities of a successful parse, as the source entries. *)
Lemma parseEDSRespProto_Localities m u :
  parseEDSRespProto (Some m) = Some (u, None) ->
  Forall2 locality_from (xdspb.Endpoints m) (xdsresource.Localities u).
Proof.
  rewrite parseEDSRespProto_unfold.
  destruct (localities_loop _ _ _) as [err|[ret P]] eqn:E; [done|].
  destruct (priorities_loop _ _ _); [done|]. intros [= <-].
  apply localities_loop_inr in E as (_ & _ & (new & Hnew & Hrel) & _).
  by rewrite Hnew, drops_loop_Localities.
Qed.

(** X17: in the update of a successful parse the priorities of the
    localities are contiguous from 0, and each is below the number of
    localities. *)
Theorem parseEDSRespProto_priority_bound (m : xdspb.ClusterLoadAssignment)
    (u : xdsresource.EndpointsUpdate) :
  uint32_priorities m ->
  parseEDSRespProto (Some m) = Some (u, None) ->
  contiguous (list_to_set (xdsresource.Priority <$> xdsresource.Localities u)) ∧
  Forall (fun l => (xdsresource.Priority l <
                    N.of_nat (length (xdsresource.Localities u)))%N)
    (xdsresource.Localities u).
Proof.
  intros Hm Hu.
  pose proof (parseEDSRespProto_Localities m u Hu) as Hrel.
  pose proof (Localities_Priority _ _ Hrel) as Hprio.
  assert (contiguous (declared_priorities m)) as Hc.
  { apply (parseEDSRespProto_ok_iff m Hm). by exists u. }
  unfold declared_priorities in Hc. rewrite <- Hprio in Hc.
  split; [done|].
  apply Forall_forall. intros l Hl.
  assert (xdsresource.Priority l ∈
          (list_to_set (xdsresource.Priority <$> xdsresource.Localities u) : gset N)) as Hin.
  { apply elem_of_list_to_set, list_elem_of_fmap. by exists l. }
  apply Hc in Hin.
  pose proof (size_list_to_set_le (xdsresource.Priority <$> xdsresource.Localities u)) as Hle.
  rewrite length_fmap in Hle. lia.
Qed.

(** X18: [parseEDSRespProtoForTesting] panics on a nil message; on another
    it returns, instead of panicking, exactly when every locality has an
    identifier and the declared priorities are contiguous, and what it
    returns is the update of [parseEDSRespProto]. *)
Theorem parseEDSRespProtoForTesting_returns (m : xdspb.ClusterLoadAssignment) :
  uint32_priorities m ->
  parseEDSRespProtoForTesting None = None ∧
  (is_Some (parseEDSRespProtoForTesting (Some m)) ↔
   Forall has_ID (xdspb.Endpoints m) ∧ contiguous (declared_priorities m)) ∧
  (∀ u, parseEDSRespProtoForTesting (Some m) = Some u ↔
        parseEDSRespProto (Some m) = Some (u, None)).
Proof.
  intros Hm. split; [done|].
  assert (∀ u, parseEDSRespProtoForTesting (Some m) = Some u ↔
               parseEDSRespProto (Some m) = Some (u, None)) as Hiff.
  { intros u. unfold parseEDSRespProtoForTesting.
    destruct (parseEDSRespProto (Some m)) as [[u' [e|]]|]; split; try done.
    - by intros [= ->].
    - by intros [= ->]. }
  split; [|done].
  rewrite <- (parseEDSRespProto_ok_iff m Hm). split.
  - intros [u Hu]. exists u. by apply Hiff.
  - intros [u Hu]. exists u. by apply Hiff.
Qed.

(** X19: the denominator [parseDropPolicy] gives is 0, 100, 10000 or
    1000000, and it is 0 exactly for a tag that is none of the three units;
    a policy without drop percentage gives 0 over 100. *)
Theorem parseDropPolicy_range
    (dropPolicy : option xdspb.ClusterLoadAssignment_Policy_DropOverload) :
  let tag := typepb.GetDenominator (xdspb.GetDropPercentage dropPolicy) in
  let cfg := parseDropPolicy dropPolicy in
  xdsresource.Denominator cfg ∈ [0%N; 100%N; 10000%N; 1000000%N] ∧
  (xdsresource.Denominator cfg = 0%N ↔
   tag ≠ typepb.FractionalPercent_HUNDRED ∧
   tag ≠ typepb.FractionalPercent_TEN_THOUSAND ∧
   tag ≠ typepb.FractionalPercent_MILLION) ∧
  (xdspb.GetDropPercentage dropPolicy = None ->
   xdsresource.Numerator cfg = 0%N ∧ xdsresource.Denominator cfg = 100%N).
Proof.
  simpl. split; [|split].
  - repeat (case Z.eqb_spec; intros ?); set_solver.
  - unfold typepb.FractionalPercent_HUNDRED, typepb.FractionalPercent_TEN_THOUSAND,
      typepb.FractionalPercent_MILLION.
    repeat (case Z.eqb_spec; intros ?); split; try done; try lia; intros (? & ? & ?); lia.
  - by intros ->.
Qed.

(** *** Addresses *)

Lemma append_cons (c : ascii) (a b : string) :
  (String c a ++ b)%string = String c (a ++ b)%string.
Proof. reflexivity. Qed.

Lemma append_nil (b : string) : (EmptyString ++ b)%string = b.
Proof. reflexivity. Qed.

Lemma has_colon_app_r (a b : string) :
  net.has_colon b = true -> net.has_colon (a ++ b) = true.
Proof.
  intros Hb. induction a as [|c a IH]; [done|].
  rewrite append_cons. simpl. by destruct (Ascii.eqb c ":").
Qed.

Lemma has_colon_app_l (a b : string) :
  net.has_colon a = true -> net.has_colon (a ++ b) = true.
Proof.
  induction a as [|c a IH]; [done|].
  rewrite append_cons. simpl. destruct (Ascii.eqb c ":"); [done|]. apply IH.
Qed.

Lemma append_bracket (h s : string) :
  (h ++ String "]" s = (h ++ "]") ++ s)%string.
Proof.
  induction h as [|c h IH]; [done|].
  rewrite !append_cons. f_equal. exact IH.
Qed.

Lemma append_bracket_inj (h1 h2 : string) :
  (h1 ++ "]" = h2 ++ "]")%string -> h1 = h2.
Proof.
  revert h2. induction h1 as [|c h1 IH]; intros [|c' h2];
    rewrite ?append_cons, ?append_nil; try done.
  - intros [= <- H]. by destruct h2.
  - intros [= -> H]. by destruct h1.
  - intros [= -> H]. f_equal. by apply IH.
Qed.

(** The last colon of "a:p" is the one put in, when [p] has none. *)
Lemma join_inj (a1 a2 p1 p2 : string) :
  net.has_colon p1 = false -> net.has_colon p2 = false ->
  (a1 ++ String ":" p1 = a2 ++ String ":" p2)%string ->
  a1 = a2 ∧ p1 = p2.
Proof.
  intros Hp1 Hp2. revert a2.
  induction a1 as [|c a1 IH]; intros [|c' a2];
    rewrite ?append_cons, ?append_nil.
  - by intros [= ->].
  - intros [= <- H]. rewrite H in Hp1.
    by rewrite has_colon_app_r in Hp1.
  - intros [= -> H]. rewrite <- H in Hp2.
    by rewrite has_colon_app_r in Hp2.
  - intros [= -> H]. destruct (IH a2 H) as [-> ->]. done.
Qed.

Lemma string_of_uint_no_colon (d : Decimal.uint) :
  net.has_colon (NilEmpty.string_of_uint d) = false.
Proof. induction d; simpl; done. Qed.

(** The decimal rendering of a number has no colon. *)
Lemma Itoa_no_colon (n : N) : net.has_colon (strconv.Itoa (Z.of_N n)) = false.
Proof.
  unfold strconv.Itoa. destruct n as [|p]; [reflexivity|]. simpl.
  unfold NilZero.string_of_uint.
  destruct (Pos.to_uint p) eqn:E; try apply string_of_uint_no_colon.
  reflexivity.
Qed.

(** Two numbers with the same decimal rendering are equal. *)
Lemma Itoa_inj (z1 z2 : Z) : strconv.Itoa z1 = strconv.Itoa z2 -> z1 = z2.
Proof.
  unfold strconv.Itoa. intros H.
  assert (∀ z, NilZero.int_of_string (NilZero.string_of_int (Z.to_int z)) =
               Some (Z.to_int z)) as Hisi.
  { intros z. apply NilZero.isi.
    - destruct z as [|p|p]; simpl; try done.
      intros [= Hp]. by apply DecimalPos.Unsigned.to_uint_nonnil in Hp.
    - destruct z as [|p|p]; simpl; try done.
      intros [= Hp]. by apply DecimalPos.Unsigned.to_uint_nonnil in Hp. }
  pose proof (Hisi z1) as H1. rewrite H, Hisi in H1. injection H1 as H1.
  symmetry. by apply DecimalZ.to_int_inj.
Qed.

(** X20: [parseAddress] keeps socket addresses apart: two of them with the
    same rendering have the same host and the same port. *)
Theorem parseAddress_inj (sa1 sa2 : option corepb.SocketAddress) :
  parseAddress sa1 = parseAddress sa2 ->
  corepb.SocketAddress_GetAddress sa1 = corepb.SocketAddress_GetAddress sa2 ∧
  corepb.SocketAddress_GetPortValue sa1 = corepb.SocketAddress_GetPortValue sa2.
Proof.
  unfold parseAddress, net.JoinHostPort.
  pose proof (Itoa_no_colon (corepb.SocketAddress_GetPortValue sa1)) as Hc1.
  pose proof (Itoa_no_colon (corepb.SocketAddress_GetPortValue sa2)) as Hc2.
  assert (strconv.Itoa (Z.of_N (corepb.SocketAddress_GetPortValue sa1)) =
          strconv.Itoa (Z.of_N (corepb.SocketAddress_GetPortValue sa2)) ->
          corepb.SocketAddress_GetPortValue sa1 =
          corepb.SocketAddress_GetPortValue sa2) as Hport.
  { intros Hp. apply Itoa_inj in Hp. lia. }
  revert Hc1 Hc2 Hport.
  generalize (strconv.Itoa (Z.of_N (corepb.SocketAddress_GetPortValue sa1))) as p1.
  generalize (strconv.Itoa (Z.of_N (corepb.SocketAddress_GetPortValue sa2))) as p2.
  generalize (corepb.SocketAddress_GetAddress sa1) as h1.
  generalize (corepb.SocketAddress_GetAddress sa2) as h2.
  intros h2 h1 p2 p1 Hc1 Hc2 Hport.
  destruct (net.has_colon h1) eqn:E1, (net.has_colon h2) eqn:E2;
    rewrite ?append_cons, ?append_nil; intros H.
  - injection H as H.
    rewrite (append_bracket h1 (String ":" p1)), (append_bracket h2 (String ":" p2)) in H.
    apply join_inj in H as [H Hp]; [|done..].
    apply append_bracket_inj in H. split; [done | by apply Hport].
  - exfalso. rewrite append_bracket in H. rewrite <- append_cons in H.
    symmetry in H. apply join_inj in H as [H _]; [|done..].
    rewrite H in E2. simpl in E2.
    by rewrite (has_colon_app_l _ _ E1) in E2.
  - exfalso. rewrite append_bracket in H. rewrite <- append_cons in H.
    apply join_inj in H as [H _]; [|done..].
    rewrite H in E1. simpl in E1.
    by rewrite (has_colon_app_l _ _ E2) in E1.
  - apply join_inj in H as [H Hp]; [|done..]. split; [done | by apply Hport].
Qed.

Lemma parseEDSRespProto_error_witness :
  ∃ u err,
    parseEDSRespProto (Some gap_at_1) = Some (u, Some err) ∧
    u = {| xdsresource.Drops := []; xdsresource.Localities := [] |} ∧
    ((∃ locality, locality ∈ xdspb.Endpoints gap_at_1 ∧
                  endpointpb.GetLocality locality = None ∧
                  err = Errorf locality_without_ID [of_locality locality]) ∨
     (Forall has_ID (xdspb.Endpoints gap_at_1) ∧
      ∃ i : nat, (i < size (declared_priorities gap_at_1))%nat ∧
                 err = Errorf priority_missing
                         [of_int (Z.of_nat i);
                          of_priorities (declared_priorities gap_at_1)])).
Proof.
  do 2 eexists. split; [reflexivity|].
  apply (parseEDSRespProto_error gap_at_1). reflexivity.
Defined.

Lemma parseEDSRespProto_Permutation_witness :
  (∃ u, parseEDSRespProto (Some shared_priority) = Some (u, None)) ↔
  (∃ u', parseEDSRespProto (Some reordered_priority) = Some (u', None)).
Proof.
  apply (parseEDSRespProto_Permutation shared_priority reordered_priority).
  - repeat constructor.
  - apply (Permutation_rev (xdspb.Endpoints shared_priority)).
Defined.

Lemma parseEDSRespProto_priority_bound_witness :
  ∃ u,
    parseEDSRespProto (Some shared_priority) = Some (u, None) ∧
    contiguous (list_to_set (xdsresource.Priority <$> xdsresource.Localities u)) ∧
    Forall (fun l => (xdsresource.Priority l <
                      N.of_nat (length (xdsresource.Localities u)))%N)
      (xdsresource.Localities u).
Proof.
  eexists. split; [reflexivity|].
  apply (parseEDSRespProto_priority_bound shared_priority).
  - repeat constructor.
  - reflexivity.
Defined.

Lemma parseEDSRespProtoForTesting_returns_witness :
  parseEDSRespProtoForTesting None = None ∧
  (is_Some (parseEDSRespProtoForTesting (Some gap_at_1)) ↔
   Forall has_ID (xdspb.Endpoints gap_at_1) ∧
   contiguous (declared_priorities gap_at_1)) ∧
  (∀ u, parseEDSRespProtoForTesting (Some gap_at_1) = Some u ↔
        parseEDSRespProto (Some gap_at_1) = Some (u, None)).
Proof.
  apply (parseEDSRespProtoForTesting_returns gap_at_1). repeat constructor.
Defined.

Lemma parseDropPolicy_range_witness :
  xdsresource.Numerator (parseDropPolicy None) = 0%N ∧
  xdsresource.Denominator (parseDropPolicy None) = 100%N.
Proof. apply (parseDropPolicy_range None). reflexivity. Defined.

Lemma parseAddress_inj_witness :
  corepb.SocketAddress_GetAddress port_unset =
    corepb.SocketAddress_GetAddress port_zero ∧
  corepb.SocketAddress_GetPortValue port_unset =
    corepb.SocketAddress_GetPortValue port_zero.
Proof. apply (parseAddress_inj port_unset port_zero). reflexivity. Defined.
End clusterresolver_more.
